(** * The alias API of [app/api/views/alias.py]

    A shallow embedding of the Flask handlers that manage aliases, their
    contacts (reverse aliases) and their activity log, together with the
    properties the specification states about them.

    The handlers are Python functions that read a request, talk to the
    database through the model classes, return early with an error response,
    and may be interrupted by an exception.  They are embedded as
    computations in a small state monad over the database with early return
    and exceptions. *)

From Stdlib Require Import ZArith String Ascii List Lia Permutation.
From stdpp Require Import base option list gmap strings sorting.

Local Open Scope string_scope.
Local Open Scope nat_scope.

(** ** Data model *)

Module User.
Record t := mk { id : nat }.
End User.

Module Alias.
Record t := mk {
  id : nat;
  email : string;
  user_id : nat;
  enabled : bool;
  created_at : Z;
  note : option string
}.
End Alias.

Module Contact.
Record t := mk {
  id : nat;
  gen_email_id : nat;
  website_from : option string;
  website_email : string;
  reply_email : string;
  created_at : Z
}.
End Contact.

Module EmailLog.
Record t := mk {
  id : nat;
  alias_id : nat;
  contact_id : option nat;
  is_reply : bool;
  bounced : bool;
  blocked : bool;
  created_at : Z
}.
End EmailLog.

(** The rows [get_alias_log] hands to [get_alias_activities]: the fields read
    at lines 150-161. *)
Module AliasLog.
Record t := mk {
  website_email : string;
  website_from : option string;
  alias : string;
  when : Z;
  is_reply : bool;
  blocked : bool;
  bounced : bool
}.
End AliasLog.

(** The tables of the relational store. [next_contact_id] is the sequence
    behind the primary key of the contact table, [now] the clock read for
    [created_at]. *)
Record Store := mkStore {
  aliases : list Alias.t;
  contacts : list Contact.t;
  email_logs : list EmailLog.t;
  next_contact_id : nat;
  now : Z
}.

(** What a handler runs in: the store, the position on the tape of random
    characters, and the trace of the [Contact.get_by(reply_email=...)]
    queries issued so far (a ghost field, used to count existence checks). *)
Record World := mkWorld {
  db : Store;
  rng : nat;
  probes : list string
}.

(** ** Requests and responses *)

(** A request whose body, if it has one, is a JSON object with string or
    null values; [get_json] is [None] when the request carries no JSON. The
    bodies that are not objects are those of [Body] below. [args_page_id] is
    the outcome of
    [int(request.args.get("page_id"))]: [None] when it raises [ValueError] or
    [TypeError]. *)
Record Request := mkRequest {
  g_user : User.t;
  get_json : option (gmap string (option string));
  args_page_id : option Z
}.

Inductive Action := forward | reply | block | bounced.

Record Activity := mkActivity {
  act_timestamp : Z;
  act_from : string;
  act_to : string;
  act_action : Action
}.

(** The dictionary built by [serialize_contact]. *)
Record ContactJson := mkContactJson {
  creation_date : string;
  creation_timestamp : Z;
  last_email_sent_date : option string;
  last_email_sent_timestamp : option Z;
  contact : string;
  reverse_alias : string
}.

Inductive Payload :=
| JError (error : string)
| JDeleted (deleted : bool)
| JEnabled (enabled : bool)
| JNote (note : option string)
| JActivities (activities : list Activity)
| JContacts (contacts : list ContactJson)
| JContact (c : ContactJson).

Record Response := mkResponse { payload : Payload; status : nat }.

(** Exceptions that leave a handler. [NotFound] is an HTTP exception, which
    the framework turns into a 404 response; the others are not handled. *)
Inductive Exn := NotFound | IntegrityError | DataError | AttributeError.

Inductive Outcome :=
| Responded (r : Response)
| Raised (e : Exn).

(** The error taxonomy of the specification. *)
Inductive ErrorClass := ValidationError | Forbidden | NotFoundError | Conflict | Internal.

Definition error_class (o : Outcome) : option ErrorClass :=
  match o with
  | Responded r =>
      match status r with
      | 400 => Some ValidationError
      | 403 => Some Forbidden
      | 404 => Some NotFoundError
      | 409 => Some Conflict
      | 500 => Some Internal
      | _ => None
      end
  | Raised NotFound => Some NotFoundError
  | Raised _ => Some Internal
  end.

(** ** The handler monad *)

Inductive Res (A : Type) :=
| Val (a : A)
| Ret (r : Response)
| Exc (e : Exn).
Arguments Val {A} a.
Arguments Ret {A} r.
Arguments Exc {A} e.

Definition M (A : Type) : Type := World → Res A * World.

#[global] Instance M_ret : MRet M := λ A a w, (Val a, w).
#[global] Instance M_bind : MBind M := λ A B f m w,
  match m w with
  | (Val a, w') => f a w'
  | (Ret r, w') => (Ret r, w')
  | (Exc e, w') => (Exc e, w')
  end.

(** [return jsonify(...), code] in the middle of a handler. *)
Definition early {A} (r : Response) : M A := λ w, (Ret r, w).
Definition raise {A} (e : Exn) : M A := λ w, (Exc e, w).
Definition get_db : M Store := λ w, (Val (db w), w).
Definition put_db (s : Store) : M unit :=
  λ w, (Val tt, {| db := s; rng := rng w; probes := probes w |}).

Definition run (h : M Response) (w : World) : Outcome * World :=
  match h w with
  | (Val r, w') => (Responded r, w')
  | (Ret r, w') => (Responded r, w')
  | (Exc e, w') => (Raised e, w')
  end.

Definition jsonify_error (msg : string) (code : nat) : Response :=
  {| payload := JError msg; status := code |}.

(** Python truthiness and [or]. *)
Definition truthy_str (s : option string) : bool :=
  match s with
  | Some (String _ _) => true
  | _ => false
  end.

Definition py_or (a : option string) (b : string) : string :=
  match a with
  | Some (String c s) => String c s
  | _ => b
  end.

Definition truthy_json (data : option (gmap string (option string))) : bool :=
  match data with
  | Some d => negb (bool_decide (d = ∅))
  | None => false
  end.

(** [data.get(key)]: [None] for a missing key and for a null value. *)
Definition data_get (data : gmap string (option string)) (key : string) : option string :=
  match data !! key with
  | Some v => v
  | None => None
  end.

(** The orders of [order_by(desc(EmailLog.created_at))] and of
    [order_by(Contact.id.desc())]. *)
Definition newer_log (a b : EmailLog.t) : Prop :=
  (EmailLog.created_at b ≤ EmailLog.created_at a)%Z.

Definition newer_contact (a b : Contact.t) : Prop :=
  (Contact.id b ≤ Contact.id a)%nat.

#[global] Instance newer_log_dec a b : Decision (newer_log a b).
Proof. unfold newer_log. apply _. Defined.

#[global] Instance newer_contact_dec a b : Decision (newer_contact a b).
Proof. unfold newer_contact. apply _. Defined.

(** ** The scenario of section 8

    Alias [a1] (id 1, owner [u1], enabled) in an otherwise empty store, and
    the requests made on it by [u1] and by a stranger [u2]. *)
Module Scenario.

Definition EMAIL_DOMAIN : string := "sl.local".
Definition PAGE_LIMIT : nat := 2.

(** A tape that spells the alphabet over and over, and one stuck on "a". *)
Definition tape (pos : nat) : ascii := ascii_of_nat (97 + pos mod 26).
Definition stuck_tape (pos : nat) : ascii := "a"%char.

(** What the address parser answers on the headers of the scenario. *)
Definition getaddrlist (field : string) : list (string * string) :=
  if String.eqb field "Bob <bob@x.com>" then [("Bob", "bob@x.com")]
  else [("", field)].

Definition get_alias_log (s : Store) (alias : Alias.t) (page_id : Z) : list AliasLog.t :=
  [].

Definition display_name (fe : Contact.t) : string := "Bob".
Definition arrow_format (t : Z) : string := "2020-03-01T00:00:00+00:00".

Definition u1 : User.t := User.mk 1.
Definition u2 : User.t := User.mk 2.

Definition a1 : Alias.t :=
  {| Alias.id := 1; Alias.email := "a1@sl.local"; Alias.user_id := 1;
     Alias.enabled := true; Alias.created_at := 1583020800; Alias.note := None |}.

Definition world : World :=
  {| db := {| aliases := [a1]; contacts := []; email_logs := [];
              next_contact_id := 1; now := 1583020900 |};
     rng := 0; probes := [] |}.

(** POST /aliases/<id>/contacts with body [{"contact": raw}]. *)
Definition post_contact (user : User.t) (raw : option string) : Request :=
  {| g_user := user; get_json := Some {[ "contact" := raw ]}; args_page_id := None |}.

(** PUT /aliases/<id> with body [{"note": note}]. *)
Definition put_note (user : User.t) (note : string) : Request :=
  {| g_user := user; get_json := Some {[ "note" := Some note ]}; args_page_id := None |}.

(** A request without a JSON body, and a GET with [page_id] in the query. *)
Definition no_body (user : User.t) : Request :=
  {| g_user := user; get_json := None; args_page_id := None |}.

Definition get_page (user : User.t) (page_id : Z) : Request :=
  {| g_user := user; get_json := None; args_page_id := Some page_id |}.

End Scenario.

(** A second alias [a2], owned by [u2], with one contact, next to [a1]. *)
Module Neighbours.

Definition a2 : Alias.t :=
  {| Alias.id := 2; Alias.email := "a2@sl.local"; Alias.user_id := 2;
     Alias.enabled := false; Alias.created_at := 1583020850;
     Alias.note := Some "shop" |}.

Definition carol : Contact.t :=
  {| Contact.id := 1; Contact.gen_email_id := 2;
     Contact.website_from := Some "Carol <carol@z.net>";
     Contact.website_email := "carol@z.net";
     Contact.reply_email := "ra+carolcarolcarolcarolcarol@sl.local";
     Contact.created_at := 1583020870 |}.

Definition world : World :=
  {| db := {| aliases := [Scenario.a1; a2]; contacts := [carol]; email_logs := [];
              next_contact_id := 2; now := 1583020900 |};
     rng := 0; probes := [] |}.

End Neighbours.

(** The log of alias 1: a reply, a bounce that was also blocked, a block and
    a forward from a correspondent without raw from header. *)
Module Timeline.

Definition rows : list AliasLog.t :=
  [ {| AliasLog.website_email := "bob@x.com";
       AliasLog.website_from := Some "Bob <bob@x.com>";
       AliasLog.alias := "a1@sl.local"; AliasLog.when := 1583020990;
       AliasLog.is_reply := true; AliasLog.blocked := true; AliasLog.bounced := true |};
    {| AliasLog.website_email := "bob@x.com";
       AliasLog.website_from := Some "Bob <bob@x.com>";
       AliasLog.alias := "a1@sl.local"; AliasLog.when := 1583020980;
       AliasLog.is_reply := false; AliasLog.blocked := true; AliasLog.bounced := true |};
    {| AliasLog.website_email := "spam@y.org";
       AliasLog.website_from := Some "";
       AliasLog.alias := "a1@sl.local"; AliasLog.when := 1583020970;
       AliasLog.is_reply := false; AliasLog.blocked := true; AliasLog.bounced := false |};
    {| AliasLog.website_email := "news@z.net";
       AliasLog.website_from := None;
       AliasLog.alias := "a1@sl.local"; AliasLog.when := 1583020960;
       AliasLog.is_reply := false; AliasLog.blocked := false; AliasLog.bounced := false |} ].

Definition get_alias_log (s : Store) (alias : Alias.t) (page_id : Z) : list AliasLog.t :=
  rows.

End Timeline.

Section Api.

Ltac unfold_m :=
  unfold mbind, M_bind, mret, M_ret, early, raise, get_db, put_db in *.

(** ** What the module imports *)

(** [app.config]. *)
Variable EMAIL_DOMAIN : string.
Variable PAGE_LIMIT : nat.

(** The source of randomness behind [app.utils.random_string]: an infinite
    tape of characters, read from position [rng]. *)
Variable tape : nat → ascii.

(** The RFC 5322 address-list parser behind [email.utils.parseaddr]
    ([AddressList.getaddrlist]): the (display name, address) pairs of a
    non-empty header value. *)
Variable getaddrlist : string → list (string * string).

(** [app.dashboard.views.alias_log.get_alias_log]. *)
Variable get_alias_log : Store → Alias.t → Z → list AliasLog.t.

(** The display name [Contact.website_send_to] shows for a correspondent, and
    [Arrow.format]. *)
Variable display_name : Contact.t → string.
Variable arrow_format : Z → string.

(** [email.utils.parseaddr]: a falsy argument has an empty address list, and
    an empty address list gives [('', '')]; otherwise the first address. *)
Definition parseaddr (addr : option string) : string * string :=
  if truthy_str addr then
    match getaddrlist (default "" addr) with
    | [] => ("", "")
    | a :: _ => a
    end
  else ("", "").

(** Modelled from the spec: [app.utils.random_string] is not part of the
    sources at hand. It returns a token of the requested length, freshly
    sampled at each call: here the next [n] characters of the tape. *)
Fixpoint read_tape (n pos : nat) : string :=
  match n with
  | 0 => ""
  | S k => String (tape pos) (read_tape k (S pos))
  end.

Definition random_string (n : nat) : M string :=
  λ w, (Val (read_tape n (rng w)),
        {| db := db w; rng := rng w + n; probes := probes w |}).

(** ** The model classes *)

(** Modelled from the spec: [Alias.get] ([app.models]) is not part of the
    sources at hand. Section 4.4: alias lookup itself fails with [NotFound]
    if the id does not exist. *)
Definition Alias_get (alias_id : nat) : M Alias.t :=
  s ← get_db;
  match list_find (λ a, Alias.id a = alias_id) (aliases s) with
  | Some (_, a) => mret a
  | None => raise NotFound
  end.

(** Modelled from the spec: [Alias.delete] ([app.models]). Section 3: deleting
    an alias removes it and cascades to its contacts and logs. *)
Definition Alias_delete (alias_id : nat) : M unit :=
  s ← get_db;
  put_db {| aliases := filter (λ a, Alias.id a ≠ alias_id) (aliases s);
            contacts := filter (λ c, Contact.gen_email_id c ≠ alias_id) (contacts s);
            email_logs := filter (λ l, EmailLog.alias_id l ≠ alias_id) (email_logs s);
            next_contact_id := next_contact_id s;
            now := now s |}.

(** An attribute assignment on a loaded alias followed by a commit: the row
    with the alias's id is replaced. *)
Definition Alias_save (a : Alias.t) : M unit :=
  s ← get_db;
  put_db {| aliases := (λ x, if decide (Alias.id x = Alias.id a) then a else x) <$> aliases s;
            contacts := contacts s;
            email_logs := email_logs s;
            next_contact_id := next_contact_id s;
            now := now s |}.

(** [Contact.get_by(reply_email=...)]: a read-only point lookup, recorded in
    [probes]. *)
Definition Contact_get_by_reply_email (reply_email : string) : M (option Contact.t) :=
  λ w, (Val (snd <$> list_find (λ c, Contact.reply_email c = reply_email) (contacts (db w))),
        {| db := db w; rng := rng w; probes := probes w ++ [reply_email] |}).

(** [Contact.get_by(gen_email_id=..., website_email=...)]. *)
Definition Contact_get_by (gen_email_id : nat) (website_email : string) : M (option Contact.t) :=
  s ← get_db;
  mret (snd <$> list_find (λ c, Contact.gen_email_id c = gen_email_id
                                ∧ Contact.website_email c = website_email) (contacts s)).

(** The row [Contact.create] builds: the next id of the sequence and the
    current time as [created_at]. *)
Definition new_contact (s : Store) (gen_email_id : nat) (website_email : string)
    (website_from : option string) (reply_email : string) : Contact.t :=
  {| Contact.id := next_contact_id s;
     Contact.gen_email_id := gen_email_id;
     Contact.website_from := website_from;
     Contact.website_email := website_email;
     Contact.reply_email := reply_email;
     Contact.created_at := now s |}.

Definition add_contact (s : Store) (c : Contact.t) : Store :=
  {| aliases := aliases s;
     contacts := contacts s ++ [c];
     email_logs := email_logs s;
     next_contact_id := S (next_contact_id s);
     now := now s |}.

(** Modelled from the spec: [Contact.create] ([app.models]) is not part of the
    sources at hand. Sections 3 and 4.2: the row is persisted atomically, with
    a fresh id, under the uniqueness constraints on [reply_email] and on
    [(gen_email_id, website_email)]; a violated constraint raises and nothing
    is persisted. *)
Definition Contact_create (gen_email_id : nat) (website_email : string)
    (website_from : option string) (reply_email : string) : M Contact.t :=
  s ← get_db;
  if decide (Exists (λ c, Contact.reply_email c = reply_email
                          ∨ (Contact.gen_email_id c = gen_email_id
                             ∧ Contact.website_email c = website_email)) (contacts s))
  then raise IntegrityError
  else
    let c := new_contact s gen_email_id website_email website_from reply_email in
    _ ← put_db (add_contact s c);
    mret c.

(** Modelled from the spec: [Contact.website_send_to] ([app.models]).
    Section 4.2: a "Display <reply_email>" style string combining the
    correspondent's display name with the reply address. *)
Definition website_send_to (fe : Contact.t) : string :=
  display_name fe +:+ " <" +:+ Contact.reply_email fe +:+ ">".

Definition reply_logs (s : Store) (fe : Contact.t) : list EmailLog.t :=
  filter (λ l, EmailLog.contact_id l = Some (Contact.id fe) ∧ EmailLog.is_reply l = true)
         (email_logs s).

(** Modelled from the spec: [Contact.last_reply] ([app.models]). Section 4.2:
    the most recent reply-direction EmailLog tied to this contact, or null if
    none exists. *)
Definition last_reply (s : Store) (fe : Contact.t) : option EmailLog.t :=
  head (merge_sort newer_log (reply_logs s fe)).

(** The largest OFFSET the database takes: it is a signed 64-bit integer. *)
Definition OFFSET_MAX : Z := 9223372036854775807.

(** A [limit(...).offset(...)] query over the rows selected and ordered so
    far. Nothing bounds the offset before it reaches the database, which
    refuses a negative one and one above [OFFSET_MAX] with an error that no
    handler catches. The limit is the configured page size. *)
Definition limit_offset {A} (rows : list A) (limit : nat) (offset : Z) : M (list A) :=
  if decide (0 ≤ offset ≤ OFFSET_MAX)%Z
  then mret (take limit (drop (Z.to_nat offset) rows))
  else raise DataError.

(** ** The handlers *)

(** Lines 299-303. *)
Definition new_reply_email : M string :=
  token ← random_string 25;
  mret ("ra+" +:+ token +:+ "@" +:+ EMAIL_DOMAIN).

Fixpoint for_range (n : nat) (reply_email : string) : M string :=
  match n with
  | 0 => mret reply_email
  | S k =>
      reply_email ← new_reply_email;
      found ← Contact_get_by_reply_email reply_email;
      match found with
      | None => mret reply_email
      | Some _ => for_range k reply_email
      end
  end.

Definition generate_reply_email : M string :=
  reply_email ← new_reply_email;
  for_range 1000 reply_email.

Definition forbidden {A} : M A := early (jsonify_error "Forbidden" 403).

(** Lines 72-90. *)
Definition delete_alias (alias_id : nat) (request : Request) : M Response :=
  let user := g_user request in
  alias ← Alias_get alias_id;
  if decide (Alias.user_id alias ≠ User.id user) then forbidden
  else
    _ ← Alias_delete alias_id;
    mret {| payload := JDeleted true; status := 200 |}.

(** Lines 96-116. *)
Definition toggle_alias (alias_id : nat) (request : Request) : M Response :=
  let user := g_user request in
  alias ← Alias_get alias_id;
  if decide (Alias.user_id alias ≠ User.id user) then forbidden
  else
    let alias' := {| Alias.id := Alias.id alias;
                     Alias.email := Alias.email alias;
                     Alias.user_id := Alias.user_id alias;
                     Alias.enabled := negb (Alias.enabled alias);
                     Alias.created_at := Alias.created_at alias;
                     Alias.note := Alias.note alias |} in
    _ ← Alias_save alias';
    mret {| payload := JEnabled (Alias.enabled alias'); status := 200 |}.

(** Lines 150-166: the body of the loop over the log rows. *)
Definition activity_of (alias_log : AliasLog.t) : Activity :=
  if AliasLog.is_reply alias_log then
    {| act_timestamp := AliasLog.when alias_log;
       act_from := AliasLog.alias alias_log;
       act_to := py_or (AliasLog.website_from alias_log) (AliasLog.website_email alias_log);
       act_action := reply |}
  else
    {| act_timestamp := AliasLog.when alias_log;
       act_from := py_or (AliasLog.website_from alias_log) (AliasLog.website_email alias_log);
       act_to := AliasLog.alias alias_log;
       act_action :=
         if AliasLog.bounced alias_log then bounced
         else if AliasLog.blocked alias_log then block
         else forward |}.

(** Lines 122-168. *)
Definition get_alias_activities (alias_id : nat) (request : Request) : M Response :=
  let user := g_user request in
  match args_page_id request with
  | None => early (jsonify_error "page_id must be provided in request query" 400)
  | Some page_id =>
      alias ← Alias_get alias_id;
      if decide (Alias.user_id alias ≠ User.id user) then forbidden
      else
        s ← get_db;
        let alias_logs := get_alias_log s alias page_id in
        mret {| payload := JActivities (activity_of <$> alias_logs); status := 200 |}
  end.

(** Lines 174-199. *)
Definition update_alias (alias_id : nat) (request : Request) : M Response :=
  let data := get_json request in
  if negb (truthy_json data) then early (jsonify_error "request body cannot be empty" 400)
  else
    let user := g_user request in
    alias ← Alias_get alias_id;
    if decide (Alias.user_id alias ≠ User.id user) then forbidden
    else
      let new_note := data_get (default ∅ data) "note" in
      _ ← Alias_save {| Alias.id := Alias.id alias;
                        Alias.email := Alias.email alias;
                        Alias.user_id := Alias.user_id alias;
                        Alias.enabled := Alias.enabled alias;
                        Alias.created_at := Alias.created_at alias;
                        Alias.note := new_note |};
      mret {| payload := JNote new_note; status := 200 |}.

(** Lines 202-218. *)
Definition serialize_contact (s : Store) (fe : Contact.t) : ContactJson :=
  let fel := last_reply s fe in
  {| creation_date := arrow_format (Contact.created_at fe);
     creation_timestamp := Contact.created_at fe;
     last_email_sent_date := (λ l, arrow_format (EmailLog.created_at l)) <$> fel;
     last_email_sent_timestamp := EmailLog.created_at <$> fel;
     contact := py_or (Contact.website_from fe) (Contact.website_email fe);
     reverse_alias := website_send_to fe |}.

(** The rows of the query at lines 222-227 before [limit] and [offset]. *)
Definition contacts_of (s : Store) (alias : Alias.t) : list Contact.t :=
  merge_sort newer_contact
    (filter (λ c, Contact.gen_email_id c = Alias.id alias) (contacts s)).

(** Lines 221-233. *)
Definition get_alias_contacts (alias : Alias.t) (page_id : Z) : M (list ContactJson) :=
  s ← get_db;
  q ← limit_offset (contacts_of s alias) PAGE_LIMIT (page_id * Z.of_nat PAGE_LIMIT);
  mret (serialize_contact s <$> q).

(** Lines 239-267. *)
Definition get_alias_contacts_route (alias_id : nat) (request : Request) : M Response :=
  let user := g_user request in
  match args_page_id request with
  | None => early (jsonify_error "page_id must be provided in request query" 400)
  | Some page_id =>
      alias ← Alias_get alias_id;
      if decide (Alias.user_id alias ≠ User.id user) then forbidden
      else
        contacts ← get_alias_contacts alias page_id;
        mret {| payload := JContacts contacts; status := 200 |}
  end.

(** Lines 273-321. *)
Definition create_contact_route (alias_id : nat) (request : Request) : M Response :=
  let data := get_json request in
  if negb (truthy_json data) then early (jsonify_error "request body cannot be empty" 400)
  else
    let user := g_user request in
    alias ← Alias_get alias_id;
    if decide (Alias.user_id alias ≠ User.id user) then forbidden
    else
      let contact_email := data_get (default ∅ data) "contact" in
      reply_email ← generate_reply_email;
      let website_email := snd (parseaddr contact_email) in
      existing ← Contact_get_by (Alias.id alias) website_email;
      match existing with
      | Some _ => early (jsonify_error "Contact already added" 409)
      | None =>
          contact ← Contact_create (Alias.id alias) website_email contact_email reply_email;
          s ← get_db;
          mret {| payload := JContact (serialize_contact s contact); status := 201 |}
      end.

(** ** Section 4.3 of the specification, in its own words *)

(** The action column of the classification table. *)
Definition table_action (is_reply bounced_ blocked_ : bool) : Action :=
  match is_reply, bounced_, blocked_ with
  | true, _, _ => reply
  | false, true, _ => bounced
  | false, false, true => block
  | false, false, false => forward
  end.

(** "correspondent raw-from, else correspondent email". *)
Definition correspondent (alias_log : AliasLog.t) : string :=
  match AliasLog.website_from alias_log with
  | Some "" | None => AliasLog.website_email alias_log
  | Some raw_from => raw_from
  end.

Definition table_from (alias_log : AliasLog.t) : string :=
  if AliasLog.is_reply alias_log then AliasLog.alias alias_log
  else correspondent alias_log.

Definition table_to (alias_log : AliasLog.t) : string :=
  if AliasLog.is_reply alias_log then correspondent alias_log
  else AliasLog.alias alias_log.

(** The activity the table assigns to a row: timestamp from [when], and the
    action, from and to of the row's line of the table. *)
Definition table_row (alias_log : AliasLog.t) : Activity :=
  {| act_timestamp := AliasLog.when alias_log;
     act_from := table_from alias_log;
     act_to := table_to alias_log;
     act_action := table_action (AliasLog.is_reply alias_log)
                                (AliasLog.bounced alias_log)
                                (AliasLog.blocked alias_log) |}.

(** ** The operations of the API, as one step function *)

Inductive Op :=
| OpDelete | OpToggle | OpActivities | OpUpdate | OpContacts | OpCreate.

Definition handle (op : Op) : nat → Request → M Response :=
  match op with
  | OpDelete => delete_alias
  | OpToggle => toggle_alias
  | OpActivities => get_alias_activities
  | OpUpdate => update_alias
  | OpContacts => get_alias_contacts_route
  | OpCreate => create_contact_route
  end.

(** The input validation a handler performs before it looks the alias up. *)
Definition validates (op : Op) (request : Request) : bool :=
  match op with
  | OpDelete | OpToggle => true
  | OpActivities | OpContacts => bool_decide (is_Some (args_page_id request))
  | OpUpdate | OpCreate => truthy_json (get_json request)
  end.

Definition validation_response (op : Op) : Response :=
  match op with
  | OpActivities | OpContacts =>
      jsonify_error "page_id must be provided in request query" 400
  | _ => jsonify_error "request body cannot be empty" 400
  end.

Record Call := mkCall { call_op : Op; call_alias_id : nat; call_request : Request }.

Definition step (w : World) (c : Call) : World :=
  snd (run (handle (call_op c) (call_alias_id c) (call_request c)) w).

(** The world after a sequence of requests. *)
Definition exec (calls : list Call) (w : World) : World := fold_left step calls w.

(** ** Predicates on the store *)

Definition in_use (s : Store) (reply_email : string) : Prop :=
  Exists (λ c, Contact.reply_email c = reply_email) (contacts s).

Definition has_contact (s : Store) (gen_email_id : nat) (website_email : string) : Prop :=
  Exists (λ c, Contact.gen_email_id c = gen_email_id
               ∧ Contact.website_email c = website_email) (contacts s).

Definition find_alias (s : Store) (alias_id : nat) : option Alias.t :=
  snd <$> list_find (λ a, Alias.id a = alias_id) (aliases s).

(** The reply addresses of the contacts are pairwise distinct. *)
Definition reply_unique (s : Store) : Prop :=
  NoDup (Contact.reply_email <$> contacts s).

(** What the request asks to record: the raw [contact] field of the body and
    the address [parseaddr] extracts from it. *)
Definition contact_email_of (request : Request) : option string :=
  data_get (default ∅ (get_json request)) "contact".

Definition website_email_of (request : Request) : string :=
  snd (parseaddr (contact_email_of request)).

(** The candidate sampled from the tape at position [pos]. *)
Definition candidate (pos : nat) : string :=
  "ra+" +:+ read_tape 25 pos +:+ "@" +:+ EMAIL_DOMAIN.

Definition contains (s sub : string) : Prop :=
  ∃ before after, s = before +:+ sub +:+ after.

(** ** The listing of aliases *)

(** [app.dashboard.views.index.AliasInfo], with the fields read at lines
    52-60. *)
Record AliasInfo := mkAliasInfo {
  ai_id : nat;
  ai_alias : Alias.t;
  ai_nb_forward : nat;
  ai_nb_blocked : nat;
  ai_nb_reply : nat;
  ai_note : option string
}.

(** One entry of the [aliases] list built at lines 50-63. *)
Record AliasJson := mkAliasJson {
  aj_id : nat;
  aj_email : string;
  aj_creation_date : string;
  aj_creation_timestamp : Z;
  aj_nb_forward : nat;
  aj_nb_block : nat;
  aj_nb_reply : nat;
  aj_enabled : bool;
  aj_note : option string
}.

(** [app.dashboard.views.index.get_alias_info]. *)
Variable get_alias_info : Store → User.t → Z → list AliasInfo.

Definition alias_summary (alias_info : AliasInfo) : AliasJson :=
  {| aj_id := ai_id alias_info;
     aj_email := Alias.email (ai_alias alias_info);
     aj_creation_date := arrow_format (Alias.created_at (ai_alias alias_info));
     aj_creation_timestamp := Alias.created_at (ai_alias alias_info);
     aj_nb_forward := ai_nb_forward alias_info;
     aj_nb_block := ai_nb_blocked alias_info;
     aj_nb_reply := ai_nb_reply alias_info;
     aj_enabled := Alias.enabled (ai_alias alias_info);
     aj_note := ai_note alias_info |}.

(** Lines 23-66. A value [l] stands for the response
    [jsonify(aliases=l), 200]. *)
Definition get_aliases (request : Request) : M (list AliasJson) :=
  let user := g_user request in
  match args_page_id request with
  | None => early (jsonify_error "page_id must be provided in request query" 400)
  | Some page_id =>
      s ← get_db;
      let alias_infos := get_alias_info s user page_id in
      mret (alias_summary <$> alias_infos)
  end.

(** ** Stores and rows that the statements below talk about *)

(** The alias after line 113, and after line 196. *)
Definition toggled (alias : Alias.t) : Alias.t :=
  {| Alias.id := Alias.id alias;
     Alias.email := Alias.email alias;
     Alias.user_id := Alias.user_id alias;
     Alias.enabled := negb (Alias.enabled alias);
     Alias.created_at := Alias.created_at alias;
     Alias.note := Alias.note alias |}.

Definition with_note (alias : Alias.t) (new_note : option string) : Alias.t :=
  {| Alias.id := Alias.id alias;
     Alias.email := Alias.email alias;
     Alias.user_id := Alias.user_id alias;
     Alias.enabled := Alias.enabled alias;
     Alias.created_at := Alias.created_at alias;
     Alias.note := new_note |}.

(** The alias table once the row(s) with the id of [a] have been replaced
    by [a], and the store with that table. *)
Definition replace_alias (a : Alias.t) (rows : list Alias.t) : list Alias.t :=
  (λ x, if decide (Alias.id x = Alias.id a) then a else x) <$> rows.

Definition with_aliases (s : Store) (rows : list Alias.t) : Store :=
  {| aliases := rows;
     contacts := contacts s;
     email_logs := email_logs s;
     next_contact_id := next_contact_id s;
     now := now s |}.

(** The store after [Alias.delete(alias_id)]. *)
Definition without_alias (s : Store) (alias_id : nat) : Store :=
  {| aliases := filter (λ a, Alias.id a ≠ alias_id) (aliases s);
     contacts := filter (λ c, Contact.gen_email_id c ≠ alias_id) (contacts s);
     email_logs := filter (λ l, EmailLog.alias_id l ≠ alias_id) (email_logs s);
     next_contact_id := next_contact_id s;
     now := now s |}.

(** Alias ids are a primary key. *)
Definition alias_ids_unique (s : Store) : Prop :=
  NoDup (Alias.id <$> aliases s).

(** No two contacts share their alias and their correspondent address. *)
Definition contact_key (c : Contact.t) : nat * string :=
  (Contact.gen_email_id c, Contact.website_email c).

Definition pair_unique (s : Store) : Prop :=
  NoDup (contact_key <$> contacts s).

(** The contacts of the alias with id [j], in table order. *)
Definition contacts_for (s : Store) (j : nat) : list Contact.t :=
  filter (λ c, Contact.gen_email_id c = j) (contacts s).

(** The candidates of attempts 1 to [k] of the generator started in [w]. *)
Definition attempts (w : World) (k : nat) : list string :=
  (λ i, candidate (rng w + 25 * i)) <$> seq 1 k.

(** Page [p] of the contacts of an alias. *)
Definition page_of (s : Store) (alias : Alias.t) (p : nat) : list Contact.t :=
  take PAGE_LIMIT (drop (p * PAGE_LIMIT) (contacts_of s alias)).

(** What a listing returns for page [p], the empty list standing for a
    failed call. *)
Definition listed (alias : Alias.t) (w : World) (p : nat) : list ContactJson :=
  match fst (get_alias_contacts alias (Z.of_nat p) w) with
  | Val l => l
  | _ => []
  end.

(** ** Bodies that are not objects *)

(** What [request.get_json()] can return: nothing, a JSON object (with string
    or null values), or another JSON value (an array, a string, a number or a
    boolean), of which only the truth value matters to the handlers. *)
Inductive Body :=
| NoJson
| JsonObject (d : gmap string (option string))
| JsonOther (truth : bool).

Definition truthy_body (data : Body) : bool :=
  match data with
  | NoJson => false
  | JsonObject d => negb (bool_decide (d = ∅))
  | JsonOther truth => truth
  end.

(** [data.get(key)]: only a dict has a [get]. *)
Definition body_get (data : Body) (key : string) : M (option string) :=
  match data with
  | JsonObject d => mret (data_get d key)
  | _ => raise AttributeError
  end.

Definition body_of (data : option (gmap string (option string))) : Body :=
  match data with
  | Some d => JsonObject d
  | None => NoJson
  end.

(** Lines 174-199, for any body. [update_alias] above is this handler on
    the requests whose body is an object ([update_alias_body_eq]). *)
Definition update_alias_body (alias_id : nat) (user : User.t) (data : Body) : M Response :=
  if negb (truthy_body data) then early (jsonify_error "request body cannot be empty" 400)
  else
    alias ← Alias_get alias_id;
    if decide (Alias.user_id alias ≠ User.id user) then forbidden
    else
      new_note ← body_get data "note";
      _ ← Alias_save {| Alias.id := Alias.id alias;
                        Alias.email := Alias.email alias;
                        Alias.user_id := Alias.user_id alias;
                        Alias.enabled := Alias.enabled alias;
                        Alias.created_at := Alias.created_at alias;
                        Alias.note := new_note |};
      mret {| payload := JNote new_note; status := 200 |}.

(** Lines 273-321, for any body. [create_contact_route] above is this
    handler on the requests whose body is an object
    ([create_contact_route_body_eq]). *)
Definition create_contact_route_body (alias_id : nat) (user : User.t) (data : Body)
    : M Response :=
  if negb (truthy_body data) then early (jsonify_error "request body cannot be empty" 400)
  else
    alias ← Alias_get alias_id;
    if decide (Alias.user_id alias ≠ User.id user) then forbidden
    else
      contact_email ← body_get data "contact";
      reply_email ← generate_reply_email;
      let website_email := snd (parseaddr contact_email) in
      existing ← Contact_get_by (Alias.id alias) website_email;
      match existing with
      | Some _ => early (jsonify_error "Contact already added" 409)
      | None =>
          contact ← Contact_create (Alias.id alias) website_email contact_email reply_email;
          s ← get_db;
          mret {| payload := JContact (serialize_contact s contact); status := 201 |}
      end.

(** ** Proofs *)

(** *** Classification of the activity log *)

Lemma py_or_correspondent alias_log :
  py_or (AliasLog.website_from alias_log) (AliasLog.website_email alias_log)
  = correspondent alias_log.
Proof.
  unfold py_or, correspondent.
  destruct (AliasLog.website_from alias_log) as [[|c s']|]; reflexivity.
Qed.

(** The body of the loop gives a row the activity of its line of the table of
    section 4.3; bounced is tested before blocked. *)
Lemma activity_of_row (alias_log : AliasLog.t) :
  activity_of alias_log
  = {| act_timestamp := AliasLog.when alias_log;
       act_from := table_from alias_log;
       act_to := table_to alias_log;
       act_action := table_action (AliasLog.is_reply alias_log)
                                  (AliasLog.bounced alias_log)
                                  (AliasLog.blocked alias_log) |}
  ∧ (AliasLog.is_reply alias_log = true →
       act_action (activity_of alias_log) = reply
       ∧ act_from (activity_of alias_log) = AliasLog.alias alias_log
       ∧ act_to (activity_of alias_log) = correspondent alias_log)
  ∧ (AliasLog.is_reply alias_log = false →
       act_from (activity_of alias_log) = correspondent alias_log
       ∧ act_to (activity_of alias_log) = AliasLog.alias alias_log
       ∧ act_action (activity_of alias_log)
         = (if AliasLog.bounced alias_log then bounced
            else if AliasLog.blocked alias_log then block else forward))
  ∧ (AliasLog.is_reply alias_log = false → AliasLog.bounced alias_log = true →
       AliasLog.blocked alias_log = true →
       act_action (activity_of alias_log) = bounced).
Proof.
  unfold activity_of, table_from, table_to, table_action.
  rewrite py_or_correspondent.
  destruct (AliasLog.is_reply alias_log), (AliasLog.bounced alias_log),
    (AliasLog.blocked alias_log); simpl; repeat split; intros; congruence.
Qed.

(** The activities of a successful listing are the rows of [get_alias_log],
    each mapped by [activity_of], in the same order. *)
Lemma get_alias_activities_ok alias_id request page_id alias w :
  args_page_id request = Some page_id →
  find_alias (db w) alias_id = Some alias →
  Alias.user_id alias = User.id (g_user request) →
  run (get_alias_activities alias_id request) w
  = (Responded {| payload := JActivities (activity_of <$> get_alias_log (db w) alias page_id);
                  status := 200 |}, w).
Proof.
  unfold find_alias, run, get_alias_activities, Alias_get. intros -> Hfind Howner.
  unfold_m. simpl.
  destruct (list_find _ (aliases (db w))) as [[i a]|]; simplify_eq/=.
  destruct (decide _) as [Hne|_]; [done|]. reflexivity.
Qed.

(** C2. For the owner's request with a [page_id], [get_alias_activities]
    answers 200 with one activity per row of [get_alias_log], in the same
    order, each with the row's timestamp and exactly the action, from and to
    that the table of section 4.3 gives the row: a reply goes from the alias
    to the correspondent (raw from, else email); any other row goes from the
    correspondent to the alias and is bounced when [bounced] is set, else
    block when [blocked] is set, else forward. In particular a row that is
    not a reply and is both bounced and blocked is classified bounced. *)
Theorem get_alias_activities_table alias_id request page_id alias w :
  args_page_id request = Some page_id →
  find_alias (db w) alias_id = Some alias →
  Alias.user_id alias = User.id (g_user request) →
  ∃ activities,
    run (get_alias_activities alias_id request) w
    = (Responded {| payload := JActivities activities; status := 200 |}, w)
    ∧ activities = table_row <$> get_alias_log (db w) alias page_id
    ∧ length activities = length (get_alias_log (db w) alias page_id)
    ∧ ∀ i alias_log,
        get_alias_log (db w) alias page_id !! i = Some alias_log →
        ∃ activity,
          activities !! i = Some activity
          ∧ act_timestamp activity = AliasLog.when alias_log
          ∧ (AliasLog.is_reply alias_log = true →
               act_action activity = reply
               ∧ act_from activity = AliasLog.alias alias_log
               ∧ act_to activity = correspondent alias_log)
          ∧ (AliasLog.is_reply alias_log = false →
               act_from activity = correspondent alias_log
               ∧ act_to activity = AliasLog.alias alias_log
               ∧ act_action activity
                 = (if AliasLog.bounced alias_log then bounced
                    else if AliasLog.blocked alias_log then block else forward))
          ∧ (AliasLog.is_reply alias_log = false →
             AliasLog.bounced alias_log = true →
             AliasLog.blocked alias_log = true →
             act_action activity = bounced).
Proof.
  intros Hpage Hsome Howner.
  exists (activity_of <$> get_alias_log (db w) alias page_id).
  split; [by apply get_alias_activities_ok|]. split; [|split].
  - apply list_fmap_ext. intros _ alias_log _.
    by destruct (activity_of_row alias_log) as [-> _].
  - apply length_fmap.
  - intros i alias_log Hi. exists (activity_of alias_log).
    split; [by rewrite list_lookup_fmap, Hi|].
    destruct (activity_of_row alias_log) as (Heq & Hreply & Hother & Hboth).
    split; [by rewrite Heq|]. done.
Qed.

(** *** Validation, lookup and ownership, for every operation *)

Lemma Alias_get_eq alias_id w :
  Alias_get alias_id w
  = (match find_alias (db w) alias_id with
     | Some a => Val a
     | None => Exc NotFound
     end, w).
Proof.
  unfold Alias_get, find_alias. unfold_m.
  destruct (list_find _ (aliases (db w))) as [[i a]|]; reflexivity.
Qed.

Lemma bind_Alias_get {B} alias_id (k : Alias.t → M B) w :
  (Alias_get alias_id ≫= k) w
  = match find_alias (db w) alias_id with
    | Some a => k a w
    | None => (Exc NotFound, w)
    end.
Proof.
  unfold mbind, M_bind. rewrite Alias_get_eq.
  destruct (find_alias (db w) alias_id); reflexivity.
Qed.

Lemma handle_invalid op alias_id request w :
  validates op request = false →
  run (handle op alias_id request) w = (Responded (validation_response op), w).
Proof.
  destruct op; simpl; intros Hv; try discriminate.
  - unfold run, get_alias_activities.
    destruct (args_page_id request); [by apply bool_decide_eq_false in Hv; destruct Hv|].
    reflexivity.
  - unfold run, update_alias. rewrite Hv. reflexivity.
  - unfold run, get_alias_contacts_route.
    destruct (args_page_id request); [by apply bool_decide_eq_false in Hv; destruct Hv|].
    reflexivity.
  - unfold run, create_contact_route. rewrite Hv. reflexivity.
Qed.

Lemma handle_not_found op alias_id request w :
  validates op request = true →
  find_alias (db w) alias_id = None →
  run (handle op alias_id request) w = (Raised NotFound, w).
Proof.
  destruct op; simpl; intros Hv Hnone; unfold run.
  - unfold delete_alias. by rewrite bind_Alias_get, Hnone.
  - unfold toggle_alias. by rewrite bind_Alias_get, Hnone.
  - unfold get_alias_activities.
    destruct (args_page_id request); [|done]. by rewrite bind_Alias_get, Hnone.
  - unfold update_alias. rewrite Hv. simpl. by rewrite bind_Alias_get, Hnone.
  - unfold get_alias_contacts_route.
    destruct (args_page_id request); [|done]. by rewrite bind_Alias_get, Hnone.
  - unfold create_contact_route. rewrite Hv. simpl. by rewrite bind_Alias_get, Hnone.
Qed.

Lemma handle_forbidden op alias_id request alias w :
  validates op request = true →
  find_alias (db w) alias_id = Some alias →
  Alias.user_id alias ≠ User.id (g_user request) →
  run (handle op alias_id request) w = (Responded (jsonify_error "Forbidden" 403), w).
Proof.
  destruct op; simpl; intros Hv Hsome Hne; unfold run.
  - unfold delete_alias. rewrite bind_Alias_get, Hsome. by rewrite decide_True.
  - unfold toggle_alias. rewrite bind_Alias_get, Hsome. by rewrite decide_True.
  - unfold get_alias_activities.
    destruct (args_page_id request); [|done].
    rewrite bind_Alias_get, Hsome. by rewrite decide_True.
  - unfold update_alias. rewrite Hv. simpl.
    rewrite bind_Alias_get, Hsome. by rewrite decide_True.
  - unfold get_alias_contacts_route.
    destruct (args_page_id request); [|done].
    rewrite bind_Alias_get, Hsome. by rewrite decide_True.
  - unfold create_contact_route. rewrite Hv. simpl.
    rewrite bind_Alias_get, Hsome. by rewrite decide_True.
Qed.

(** C5, amended. When no alias has the id, the operation leaves the world as
    it is and fails with NotFound as soon as the request passes the input
    validation that precedes the lookup; a request that fails this validation
    gets the 400 response of the validation. In neither case is the failure
    an internal error. *)
Theorem missing_alias_not_found op alias_id request w :
  find_alias (db w) alias_id = None →
  run (handle op alias_id request) w
  = (if validates op request then Raised NotFound
     else Responded (validation_response op), w)
  ∧ error_class (fst (run (handle op alias_id request) w))
    = Some (if validates op request then NotFoundError else ValidationError).
Proof.
  intros Hnone. destruct (validates op request) eqn:Hv.
  - rewrite handle_not_found by done. done.
  - rewrite handle_invalid by done. by destruct op.
Qed.

(** C7, amended. An operation on an alias by a user who does not own it
    mutates nothing; it answers Forbidden (403) when the request passes the
    input validation that precedes the ownership check, and the 400 response
    of the validation otherwise. *)
Theorem ownership_gate op alias_id request alias w :
  find_alias (db w) alias_id = Some alias →
  Alias.user_id alias ≠ User.id (g_user request) →
  run (handle op alias_id request) w
  = (Responded (if validates op request then jsonify_error "Forbidden" 403
                else validation_response op), w).
Proof.
  intros Hsome Hne. destruct (validates op request) eqn:Hv.
  - by eapply handle_forbidden.
  - by apply handle_invalid.
Qed.

(** C10. In update-note and create-contact an empty body is answered with
    the 400 validation error before anything else happens: whoever the user
    is and whatever the store holds, the response is the ValidationError one,
    not Forbidden, and the world is untouched. *)
Theorem empty_body_first alias_id request w :
  truthy_json (get_json request) = false →
  run (update_alias alias_id request) w
  = (Responded (jsonify_error "request body cannot be empty" 400), w)
  ∧ run (create_contact_route alias_id request) w
    = (Responded (jsonify_error "request body cannot be empty" 400), w)
  ∧ error_class (Responded (jsonify_error "request body cannot be empty" 400))
    = Some ValidationError.
Proof.
  intros Hv. split; [|split]; [| |reflexivity].
  - by apply (handle_invalid OpUpdate).
  - by apply (handle_invalid OpCreate).
Qed.

(** *** The generator of reply addresses *)

(** Tape positions are kept in the form [rng w + 25 * i]. *)
#[local] Arguments Nat.mul : simpl never.

Lemma reply_lookup_None s reply_email :
  snd <$> list_find (λ c, Contact.reply_email c = reply_email) (contacts s) = None
  ↔ ¬ in_use s reply_email.
Proof.
  unfold in_use. rewrite fmap_None, list_find_None. split.
  - apply Forall_not_Exists.
  - apply not_Exists_Forall. intros c. apply _.
Qed.

Lemma reply_lookup_Some s reply_email c :
  snd <$> list_find (λ c, Contact.reply_email c = reply_email) (contacts s) = Some c →
  in_use s reply_email.
Proof.
  intros H. apply fmap_Some in H as ([i c'] & Hfind & ->).
  apply list_find_Some in Hfind as (Hi & Hc & _).
  apply Exists_exists. exists c'. split; [by eapply list_elem_of_lookup_2|done].
Qed.

Lemma read_tape_length n pos : String.length (read_tape n pos) = n.
Proof. revert pos. induction n as [|n IH]; intros pos; simpl; [done|]. by rewrite IH. Qed.

Lemma new_reply_email_eq w :
  new_reply_email w
  = (Val (candidate (rng w)), {| db := db w; rng := rng w + 25; probes := probes w |}).
Proof. reflexivity. Qed.

(** The loop of lines 300-303 with [n] rounds left, started on the tape at
    [rng w]: it makes [k] attempts, each one candidate and one lookup. *)
Lemma for_range_spec n : ∀ reply_email w,
  ∃ k, k ≤ n ∧ (0 < n → 0 < k)
    ∧ for_range n reply_email w
      = (Val (match k with
              | 0 => reply_email
              | S j => candidate (rng w + 25 * j)
              end),
         {| db := db w; rng := rng w + 25 * k;
            probes := probes w ++ ((λ i, candidate (rng w + 25 * i)) <$> seq 0 k) |})
    ∧ (∀ i, S i < k → in_use (db w) (candidate (rng w + 25 * i)))
    ∧ (∀ j, k = S j → in_use (db w) (candidate (rng w + 25 * j)) → k = n).
Proof.
  induction n as [|n IH]; intros r0 w.
  - exists 0. split; [lia|]. split; [lia|]. split; [|split; intros; lia].
    destruct w as [s p tr]. simpl. unfold mret, M_ret.
    by rewrite Nat.add_0_r, app_nil_r.
  - simpl for_range. unfold mbind at 1. unfold M_bind at 1.
    rewrite new_reply_email_eq.
    unfold mbind, M_bind, Contact_get_by_reply_email. simpl.
    destruct (snd <$> list_find _ (contacts (db w))) as [c|] eqn:Hfind.
    + apply reply_lookup_Some in Hfind.
      set (w1 := {| db := db w; rng := rng w + 25;
                    probes := probes w ++ [candidate (rng w)] |}).
      destruct (IH (candidate (rng w)) w1) as (k & Hk & Hpos & Heq & Hbefore & Hlast).
      exists (S k). split; [lia|]. split; [lia|]. split; [|split].
      * rewrite Heq. subst w1. simpl. f_equal.
        -- f_equal. destruct k as [|j]; f_equal; lia.
        -- f_equal; [lia|]. rewrite <- app_assoc. f_equal. simpl. f_equal.
           ++ f_equal. lia.
           ++ rewrite <- fmap_S_seq, <- list_fmap_compose.
              apply list_fmap_ext. intros _ i _. simpl. f_equal. lia.
      * intros [|i] Hi.
        -- by replace (rng w + 25 * 0) with (rng w) by lia.
        -- specialize (Hbefore i ltac:(lia)). subst w1. simpl in Hbefore.
           by replace (rng w + 25 * S i) with (rng w + 25 + 25 * i) by lia.
      * intros j [= <-] Hin. destruct k as [|j]; [|].
        -- destruct n; [done|]. lia.
        -- f_equal. apply (Hlast j); [done|]. subst w1. simpl.
           by replace (rng w + 25 + 25 * j) with (rng w + 25 * S j) by lia.
    + apply reply_lookup_None in Hfind.
      exists 1. split; [lia|]. split; [lia|]. split; [|split].
      * unfold mret, M_ret. simpl.
        replace (rng w + 25 * 0) with (rng w) by lia.
        by replace (rng w + 25 * 1) with (rng w + 25) by lia.
      * intros i Hi. lia.
      * intros j [= <-] Hin. by replace (rng w + 25 * 0) with (rng w) in Hin by lia.
Qed.

(** C4. A candidate is [ra+<token>@<domain>] with a token of 25 characters
    read afresh from the random source at each attempt. The generator makes
    [k] attempts, between 1 and 1000; each attempt is one lookup of its own
    candidate and nothing else touches the store, which is left as it was;
    every attempt before the last found its candidate in use; the result is
    the candidate of the last attempt, which is absent from the store unless
    all 1000 attempts collided. *)
Theorem generate_reply_email_spec w :
  ∃ k, 1 ≤ k ≤ 1000
    ∧ generate_reply_email w
      = (Val (candidate (rng w + 25 * k)),
         {| db := db w; rng := rng w + 25 * (k + 1);
            probes := probes w ++ ((λ i, candidate (rng w + 25 * i)) <$> seq 1 k) |})
    ∧ (∀ i, 1 ≤ i < k → in_use (db w) (candidate (rng w + 25 * i)))
    ∧ (in_use (db w) (candidate (rng w + 25 * k)) → k = 1000)
    ∧ (∀ pos, ∃ token, String.length token = 25
         ∧ candidate pos = "ra+" +:+ token +:+ "@" +:+ EMAIL_DOMAIN).
Proof.
  unfold generate_reply_email. unfold mbind at 1. unfold M_bind at 1.
  rewrite new_reply_email_eq.
  set (w1 := {| db := db w; rng := rng w + 25; probes := probes w |}).
  destruct (for_range_spec 1000 (candidate (rng w)) w1)
    as (k & Hk & Hpos & Heq & Hbefore & Hlast).
  exists k. split; [lia|]. split; [|split; [|split]].
  - rewrite Heq. subst w1. simpl rng. simpl db. simpl probes.
    destruct k as [|j]; [lia|]. f_equal; [f_equal; f_equal; lia|].
    f_equal; [lia|]. f_equal.
    rewrite <- (fmap_S_seq 0), <- list_fmap_compose.
    apply list_fmap_ext. intros _ i _. simpl. f_equal. lia.
  - intros i Hi. destruct i as [|i]; [lia|].
    specialize (Hbefore i ltac:(lia)). subst w1. simpl in Hbefore.
    by replace (rng w + 25 * S i) with (rng w + 25 + 25 * i) by lia.
  - intros Hin. destruct k as [|j]; [lia|]. apply (Hlast j); [done|].
    subst w1. simpl. by replace (rng w + 25 + 25 * j) with (rng w + 25 * S j) by lia.
  - intros pos. exists (read_tape 25 pos). split; [apply read_tape_length|done].
Qed.

(** *** Creating a contact *)

Lemma find_None {A} (P : A → Prop) `{∀ x, Decision (P x)} (l : list A) :
  snd <$> list_find P l = None ↔ ¬ Exists P l.
Proof.
  rewrite fmap_None, list_find_None. split.
  - apply Forall_not_Exists.
  - apply not_Exists_Forall. intros x. apply _.
Qed.

Lemma find_Some {A} (P : A → Prop) `{∀ x, Decision (P x)} (l : list A) x :
  snd <$> list_find P l = Some x → Exists P l.
Proof.
  intros Hx. apply fmap_Some in Hx as ([i y] & Hfind & ->).
  apply list_find_Some in Hfind as (Hi & Hy & _).
  apply Exists_exists. exists y. split; [by eapply list_elem_of_lookup_2|done].
Qed.

(** The generator always returns an address and never touches the store. *)
Lemma generate_reply_email_total w :
  ∃ reply_email w1, generate_reply_email w = (Val reply_email, w1) ∧ db w1 = db w.
Proof.
  unfold generate_reply_email. unfold mbind at 1. unfold M_bind at 1.
  rewrite new_reply_email_eq.
  destruct (for_range_spec 1000 (candidate (rng w))
              {| db := db w; rng := rng w + 25; probes := probes w |})
    as (k & _ & _ & Heq & _).
  eexists _, _. split; [exact Heq|reflexivity].
Qed.

(** Past validation, lookup and ownership the handler is the generator
    followed by the duplicate check and the insertion. *)
Lemma create_contact_route_owner alias_id request alias w :
  truthy_json (get_json request) = true →
  find_alias (db w) alias_id = Some alias →
  Alias.user_id alias = User.id (g_user request) →
  create_contact_route alias_id request w
  = (reply_email ← generate_reply_email;
     existing ← Contact_get_by (Alias.id alias) (website_email_of request);
     match existing with
     | Some _ => early (jsonify_error "Contact already added" 409)
     | None =>
         contact ← Contact_create (Alias.id alias) (website_email_of request)
                                  (contact_email_of request) reply_email;
         s ← get_db;
         mret {| payload := JContact (serialize_contact s contact); status := 201 |}
     end) w.
Proof.
  intros Hv Hsome Howner. unfold create_contact_route. rewrite Hv. change (negb true) with false. cbv iota.
  rewrite bind_Alias_get, Hsome. by rewrite decide_False by (by intros []).
Qed.

Lemma create_conflict alias_id request alias w :
  truthy_json (get_json request) = true →
  find_alias (db w) alias_id = Some alias →
  Alias.user_id alias = User.id (g_user request) →
  has_contact (db w) (Alias.id alias) (website_email_of request) →
  ∃ w1, run (create_contact_route alias_id request) w
        = (Responded (jsonify_error "Contact already added" 409), w1)
        ∧ db w1 = db w.
Proof.
  intros Hv Hsome Howner Hdup. unfold run.
  rewrite (create_contact_route_owner _ _ alias) by done.
  destruct (generate_reply_email_total w) as (r & w1 & Hgen & Hdb).
  exists w1. split; [|done].
  unfold mbind at 1. unfold M_bind at 1. rewrite Hgen.
  unfold Contact_get_by. unfold_m. rewrite Hdb.
  destruct (snd <$> list_find _ (contacts (db w))) as [c|] eqn:Hfind; [done|].
  apply find_None in Hfind. by destruct Hfind.
Qed.

Lemma create_created alias_id request alias w reply_email w1 :
  truthy_json (get_json request) = true →
  find_alias (db w) alias_id = Some alias →
  Alias.user_id alias = User.id (g_user request) →
  generate_reply_email w = (Val reply_email, w1) →
  ¬ has_contact (db w) (Alias.id alias) (website_email_of request) →
  ¬ in_use (db w) reply_email →
  let c := new_contact (db w) (Alias.id alias) (website_email_of request)
                       (contact_email_of request) reply_email in
  run (create_contact_route alias_id request) w
  = (Responded {| payload := JContact (serialize_contact (add_contact (db w) c) c);
                  status := 201 |},
     {| db := add_contact (db w) c; rng := rng w1; probes := probes w1 |}).
Proof.
  intros Hv Hsome Howner Hgen Hnew Hfresh c. unfold run.
  rewrite (create_contact_route_owner _ _ alias) by done.
  destruct (generate_reply_email_total w) as (r & w1' & Hgen' & Hdb).
  rewrite Hgen in Hgen'. simplify_eq.
  unfold mbind at 1. unfold M_bind at 1. rewrite Hgen.
  unfold Contact_get_by, Contact_create. unfold_m. rewrite Hdb.
  destruct (snd <$> list_find _ (contacts (db w))) as [c'|] eqn:Hfind.
  { apply find_Some in Hfind. by destruct Hnew. }
  rewrite decide_False; [subst c; simpl; by rewrite !Hdb|].
  rewrite ?Hdb. intros Hex. apply Exists_exists in Hex as (x & Hx & [Hr|Hp]).
  - apply Hfresh, Exists_exists. eauto.
  - apply Hnew, Exists_exists. eauto.
Qed.

Lemma create_integrity alias_id request alias w reply_email w1 :
  truthy_json (get_json request) = true →
  find_alias (db w) alias_id = Some alias →
  Alias.user_id alias = User.id (g_user request) →
  generate_reply_email w = (Val reply_email, w1) →
  ¬ has_contact (db w) (Alias.id alias) (website_email_of request) →
  in_use (db w) reply_email →
  run (create_contact_route alias_id request) w = (Raised IntegrityError, w1).
Proof.
  intros Hv Hsome Howner Hgen Hnew Hused. unfold run.
  rewrite (create_contact_route_owner _ _ alias) by done.
  destruct (generate_reply_email_total w) as (r & w1' & Hgen' & Hdb).
  rewrite Hgen in Hgen'. simplify_eq.
  unfold mbind at 1. unfold M_bind at 1. rewrite Hgen.
  unfold Contact_get_by, Contact_create. unfold_m. rewrite Hdb.
  destruct (snd <$> list_find _ (contacts (db w))) as [c'|] eqn:Hfind.
  { apply find_Some in Hfind. by destruct Hnew. }
  rewrite decide_True; [done|]. rewrite ?Hdb.
  apply Exists_exists in Hused as (x & Hx & Hr).
  apply Exists_exists. eauto.
Qed.

(** Every run of the handler ends in one of five ways; only a 201 changes
    the store, by appending the new contact. *)
Lemma create_contact_route_cases alias_id request w :
  let '(o, w') := run (create_contact_route alias_id request) w in
  (db w' = db w
   ∧ (o = Responded (jsonify_error "request body cannot be empty" 400)
      ∨ o = Raised NotFound
      ∨ o = Responded (jsonify_error "Forbidden" 403)
      ∨ o = Responded (jsonify_error "Contact already added" 409)
      ∨ o = Raised IntegrityError))
  ∨ (∃ alias reply_email,
       let c := new_contact (db w) (Alias.id alias) (website_email_of request)
                            (contact_email_of request) reply_email in
       find_alias (db w) alias_id = Some alias
       ∧ ¬ in_use (db w) reply_email
       ∧ ¬ has_contact (db w) (Alias.id alias) (website_email_of request)
       ∧ db w' = add_contact (db w) c
       ∧ o = Responded {| payload := JContact (serialize_contact (db w') c);
                          status := 201 |}).
Proof.
  destruct (truthy_json (get_json request)) eqn:Hv.
  2:{ rewrite (handle_invalid OpCreate) by done. left. split; [done|]. by left. }
  destruct (find_alias (db w) alias_id) as [alias|] eqn:Hsome.
  2:{ rewrite (handle_not_found OpCreate) by done. left. split; [done|]. right. by left. }
  destruct (decide (Alias.user_id alias = User.id (g_user request))) as [Howner|Hne].
  2:{ rewrite (handle_forbidden OpCreate _ _ alias) by done.
      left. split; [done|]. right. right. by left. }
  destruct (decide (has_contact (db w) (Alias.id alias) (website_email_of request)))
    as [Hdup|Hnew].
  { destruct (create_conflict alias_id request alias w) as (w1 & -> & Hdb); [done..|].
    left. split; [done|]. do 3 right. by left. }
  destruct (generate_reply_email_total w) as (r & w1 & Hgen & Hdb).
  destruct (decide (in_use (db w) r)) as [Hused|Hfresh].
  { rewrite (create_integrity _ _ alias w r w1) by done.
    left. split; [done|]. by do 4 right. }
  rewrite (create_created _ _ alias w r w1) by done.
  right. exists alias, r. simpl. done.
Qed.

(** A 201 means that exactly one contact was appended, built from the
    request. *)
Lemma create_contact_route_201 alias_id request w r w' :
  run (create_contact_route alias_id request) w = (Responded r, w') →
  status r = 201 →
  ∃ c, contacts (db w') = (contacts (db w) ++ [c])%list
    ∧ Contact.website_email c = website_email_of request
    ∧ Contact.website_from c = contact_email_of request
    ∧ payload r = JContact (serialize_contact (db w') c).
Proof.
  intros Hrun Hstatus.
  pose proof (create_contact_route_cases alias_id request w) as Hcases.
  rewrite Hrun in Hcases.
  destruct Hcases as [[_ Ho]|(alias & reply_email & _ & _ & _ & Hdb & Ho)].
  - destruct Ho as [Ho|[Ho|[Ho|[Ho|Ho]]]]; simplify_eq; discriminate.
  - simplify_eq. eexists. rewrite Hdb. simpl. done.
Qed.

(** C6, amended. The contact a successful creation appends to the store
    keeps the raw input as [website_from], and its [website_email] is the
    address part of what [parseaddr] returns for that input, the display name
    being dropped. Nothing makes this address non-empty. *)
Theorem created_website_email alias_id request w r w' :
  run (create_contact_route alias_id request) w = (Responded r, w') →
  status r = 201 →
  ∃ c, contacts (db w') = (contacts (db w) ++ [c])%list
    ∧ Contact.website_email c = snd (parseaddr (contact_email_of request))
    ∧ Contact.website_from c = contact_email_of request.
Proof.
  intros Hrun Hstatus.
  destruct (create_contact_route_201 alias_id request w r w' Hrun Hstatus)
    as (c & Hcs & Hemail & Hfrom & _).
  exists c. done.
Qed.


(** *** Uniqueness of the reply addresses *)

Lemma NoDup_fmap_filter {A B} (f : A → B) (P : A → Prop) `{∀ x, Decision (P x)} l :
  NoDup (f <$> l) → NoDup (f <$> filter P l).
Proof.
  induction l as [|x l IH]; [done|]. rewrite fmap_cons, NoDup_cons.
  intros [Hx Hl]. rewrite filter_cons. destruct (decide (P x)); [|by apply IH].
  rewrite fmap_cons. apply NoDup_cons. split; [|by apply IH].
  intros Hin. apply Hx. apply list_elem_of_fmap in Hin as (y & -> & Hy).
  apply list_elem_of_filter in Hy as [_ Hy]. by apply list_elem_of_fmap_2.
Qed.

Lemma add_contact_reply_unique s c :
  reply_unique s → ¬ in_use s (Contact.reply_email c) → reply_unique (add_contact s c).
Proof.
  unfold reply_unique, in_use. simpl. intros Hs Hfresh.
  rewrite fmap_app. apply NoDup_app. split; [done|]. split; [|apply NoDup_singleton].
  intros x Hx Hin. apply list_elem_of_singleton in Hin as ->.
  apply Hfresh. apply list_elem_of_fmap in Hx as (y & Heq & Hy).
  apply Exists_exists. eauto.
Qed.

(** What one request can do to the contact table: nothing, remove the
    contacts of a deleted alias, or append one contact whose reply address
    was free. *)
Lemma step_contacts w call :
  contacts (db (step w call)) = contacts (db w)
  ∨ contacts (db (step w call))
    = filter (λ c, Contact.gen_email_id c ≠ call_alias_id call) (contacts (db w))
  ∨ ∃ c, db (step w call) = add_contact (db w) c
         ∧ ¬ in_use (db w) (Contact.reply_email c).
Proof.
  destruct call as [op alias_id request]. unfold step. simpl.
  destruct (validates op request) eqn:Hv.
  2:{ rewrite handle_invalid by done. by left. }
  destruct (find_alias (db w) alias_id) as [alias|] eqn:Hsome.
  2:{ rewrite handle_not_found by done. by left. }
  destruct (decide (Alias.user_id alias = User.id (g_user request))) as [Howner|Hne].
  2:{ rewrite (handle_forbidden _ _ _ alias) by done. by left. }
  destruct op; simpl in Hv |- *; unfold run.
  - unfold delete_alias. rewrite bind_Alias_get, Hsome.
    rewrite decide_False by (by intros []). right. by left.
  - unfold toggle_alias. rewrite bind_Alias_get, Hsome.
    rewrite decide_False by (by intros []). by left.
  - unfold get_alias_activities. destruct (args_page_id request); [|by left].
    rewrite bind_Alias_get, Hsome. rewrite decide_False by (by intros []). by left.
  - unfold update_alias. rewrite Hv. change (negb true) with false. cbv iota.
    rewrite bind_Alias_get, Hsome. rewrite decide_False by (by intros []). by left.
  - unfold get_alias_contacts_route. destruct (args_page_id request) as [page_id|]; [|by left].
    rewrite bind_Alias_get, Hsome. rewrite decide_False by (by intros []).
    unfold get_alias_contacts, limit_offset. unfold_m.
    destruct (decide (_ ∧ _)); by left.
  - pose proof (create_contact_route_cases alias_id request w) as Hcases.
    unfold run in Hcases.
    destruct (create_contact_route alias_id request w) as [[r|r|e] w'];
      (destruct Hcases as [[Hdb _]|(a & r' & _ & Hfresh & _ & Hdb & _)];
       [left; simpl; by rewrite Hdb|right; right; eexists; split; [exact Hdb|exact Hfresh]]).
Qed.

Lemma step_reply_unique w call : reply_unique (db w) → reply_unique (db (step w call)).
Proof.
  intros Hw. destruct (step_contacts w call) as [Heq|[Heq|(c & Heq & Hfresh)]].
  - unfold reply_unique. by rewrite Heq.
  - unfold reply_unique. rewrite Heq. by apply NoDup_fmap_filter.
  - rewrite Heq. by apply add_contact_reply_unique.
Qed.

(** C1. Whatever sequence of requests the API serves, starting from a store
    whose reply addresses are pairwise distinct (the empty store, say), the
    reply addresses stay pairwise distinct: two different rows of the contact
    table never share their [reply_email]. *)
Theorem reply_email_unique calls w :
  reply_unique (db w) →
  reply_unique (db (exec calls w))
  ∧ ∀ i j c1 c2,
      contacts (db (exec calls w)) !! i = Some c1 →
      contacts (db (exec calls w)) !! j = Some c2 →
      i ≠ j →
      Contact.reply_email c1 ≠ Contact.reply_email c2.
Proof.
  intros Hw.
  assert (reply_unique (db (exec calls w))) as Hinv.
  { revert w Hw. unfold exec.
    induction calls as [|call calls IH]; intros w Hw; [done|].
    simpl. apply IH. by apply step_reply_unique. }
  split; [done|]. intros i j c1 c2 Hi Hj Hij Heq. apply Hij.
  eapply (NoDup_lookup _ i j (Contact.reply_email c1) Hinv).
  - by rewrite list_lookup_fmap, Hi.
  - by rewrite list_lookup_fmap, Hj, Heq.
Qed.

(** *** Serialization *)

#[local] Instance newer_log_trans : Transitive newer_log.
Proof. unfold newer_log. intros a b c. lia. Qed.

#[local] Instance newer_log_total : Total newer_log.
Proof. unfold newer_log. intros a b. lia. Qed.

#[local] Instance newer_contact_trans : Transitive newer_contact.
Proof. unfold newer_contact. intros a b c. lia. Qed.

#[local] Instance newer_contact_total : Total newer_contact.
Proof. unfold newer_contact. intros a b. lia. Qed.

Lemma elem_of_reply_logs s fe l :
  l ∈ reply_logs s fe
  ↔ l ∈ email_logs s ∧ EmailLog.contact_id l = Some (Contact.id fe)
    ∧ EmailLog.is_reply l = true.
Proof. unfold reply_logs. rewrite list_elem_of_filter. tauto. Qed.

(** [last_reply] is a reply log of the contact that no other one postdates. *)
Lemma last_reply_Some s fe l :
  last_reply s fe = Some l →
  l ∈ reply_logs s fe
  ∧ ∀ l', l' ∈ reply_logs s fe → (EmailLog.created_at l' ≤ EmailLog.created_at l)%Z.
Proof.
  unfold last_reply. intros Hhead.
  pose proof (merge_sort_Permutation newer_log (reply_logs s fe)) as Hperm.
  pose proof (StronglySorted_merge_sort newer_log (reply_logs s fe)) as Hsorted.
  destruct (merge_sort newer_log (reply_logs s fe)) as [|x rest]; simplify_eq/=.
  split.
  - rewrite <- Hperm. by left.
  - intros l' Hl'. rewrite <- Hperm in Hl'.
    apply StronglySorted_inv in Hsorted as [_ Hall].
    apply elem_of_cons in Hl' as [->|Hl']; [done|].
    rewrite Forall_forall in Hall. by apply Hall.
Qed.

Lemma last_reply_None s fe : last_reply s fe = None → reply_logs s fe = [].
Proof.
  unfold last_reply. intros Hhead.
  pose proof (merge_sort_Permutation newer_log (reply_logs s fe)) as Hperm.
  destruct (merge_sort newer_log (reply_logs s fe)) as [|x rest]; simplify_eq/=.
  by apply Permutation_nil_l in Hperm.
Qed.

Lemma append_assoc a b c : (a +:+ b) +:+ c = a +:+ b +:+ c.
Proof.
  induction a as [|x a IH]; [done|].
  change (String x ((a +:+ b) +:+ c) = String x (a +:+ b +:+ c)). by rewrite IH.
Qed.

Lemma py_or_Some_nonempty raw b : raw ≠ "" → py_or (Some raw) b = raw.
Proof. by destruct raw. Qed.

(** C8. [serialize_contact] puts in [contact] the raw [website_from] when it
    is present (neither null nor empty) and [website_email] otherwise; in
    [reverse_alias] the string of [website_send_to], which contains the reply
    address; and in the two [last_email_sent] fields the time of the latest
    reply log tied to the contact, or null when the contact has no reply
    log. A contact just created from the header "Bob <bob@x.com>" serializes
    with that header as [contact] and with its generated reply address inside
    [reverse_alias]. *)
Theorem serialize_contact_spec s fe :
  (∀ raw, Contact.website_from fe = Some raw → raw ≠ "" →
          contact (serialize_contact s fe) = raw)
  ∧ (Contact.website_from fe = None ∨ Contact.website_from fe = Some "" →
     contact (serialize_contact s fe) = Contact.website_email fe)
  ∧ reverse_alias (serialize_contact s fe) = website_send_to fe
  ∧ contains (reverse_alias (serialize_contact s fe)) (Contact.reply_email fe)
  ∧ match last_reply s fe with
    | Some l =>
        l ∈ email_logs s
        ∧ EmailLog.contact_id l = Some (Contact.id fe)
        ∧ EmailLog.is_reply l = true
        ∧ (∀ l', l' ∈ email_logs s →
                 EmailLog.contact_id l' = Some (Contact.id fe) →
                 EmailLog.is_reply l' = true →
                 (EmailLog.created_at l' ≤ EmailLog.created_at l)%Z)
        ∧ last_email_sent_timestamp (serialize_contact s fe)
          = Some (EmailLog.created_at l)
        ∧ last_email_sent_date (serialize_contact s fe)
          = Some (arrow_format (EmailLog.created_at l))
    | None =>
        (∀ l', l' ∈ email_logs s →
               ¬ (EmailLog.contact_id l' = Some (Contact.id fe)
                  ∧ EmailLog.is_reply l' = true))
        ∧ last_email_sent_timestamp (serialize_contact s fe) = None
        ∧ last_email_sent_date (serialize_contact s fe) = None
    end
  ∧ (∀ alias_id request w r w',
       contact_email_of request = Some "Bob <bob@x.com>" →
       run (create_contact_route alias_id request) w = (Responded r, w') →
       status r = 201 →
       ∃ c, contacts (db w') = (contacts (db w) ++ [c])%list
         ∧ payload r = JContact (serialize_contact (db w') c)
         ∧ contact (serialize_contact (db w') c) = "Bob <bob@x.com>"
         ∧ contains (reverse_alias (serialize_contact (db w') c))
                    (Contact.reply_email c)).
Proof.
  assert (∀ s' c, contains (reverse_alias (serialize_contact s' c))
                           (Contact.reply_email c)) as Hcontains.
  { intros s' c. exists (display_name c +:+ " <"), ">". simpl. unfold website_send_to.
    by rewrite append_assoc. }
  split; [|split; [|split; [|split; [|split]]]].
  - intros raw Hraw Hne. simpl. rewrite Hraw. by apply py_or_Some_nonempty.
  - intros [Hraw|Hraw]; simpl; by rewrite Hraw.
  - reflexivity.
  - apply Hcontains.
  - destruct (last_reply s fe) as [l|] eqn:Hlast.
    + pose proof Hlast as Hl. apply last_reply_Some in Hl as [Hl Hmax].
      apply elem_of_reply_logs in Hl as (Hin & Hc & Hr).
      split; [done|]. split; [done|]. split; [done|]. split; [|split].
      * intros l' Hin' Hc' Hr'. apply Hmax. by apply elem_of_reply_logs.
      * unfold serialize_contact. simpl. by rewrite Hlast.
      * unfold serialize_contact. simpl. by rewrite Hlast.
    + pose proof (last_reply_None _ _ Hlast) as Hnone. split; [|split].
      * intros l' Hin' [Hc' Hr'].
        assert (l' ∈ reply_logs s fe) as Hl' by (by apply elem_of_reply_logs).
        rewrite Hnone in Hl'. by apply elem_of_nil in Hl'.
      * unfold serialize_contact. simpl. by rewrite Hlast.
      * unfold serialize_contact. simpl. by rewrite Hlast.
  - intros alias_id request w r w' Hbob Hrun Hstatus.
    destruct (create_contact_route_201 alias_id request w r w' Hrun Hstatus)
      as (c & Hcs & _ & Hfrom & Hpayload).
    exists c. split; [done|]. split; [done|]. split; [|apply Hcontains].
    simpl. by rewrite Hfrom, Hbob.
Qed.

(** *** Listing the contacts of an alias *)



Lemma page_offset page_id :
  (0 ≤ page_id)%Z →
  (0 ≤ page_id * Z.of_nat PAGE_LIMIT)%Z
  ∧ Z.to_nat (page_id * Z.of_nat PAGE_LIMIT) = Z.to_nat page_id * PAGE_LIMIT.
Proof.
  intros Hpage. split; [nia|].
  rewrite Z2Nat.inj_mul by lia. by rewrite Nat2Z.id.
Qed.

(** Past the range of OFFSET, and below it, the listing ends in the error of
    the database, for the owner too. *)
Lemma get_alias_contacts_out_of_range alias page_id w :
  ¬ (0 ≤ page_id * Z.of_nat PAGE_LIMIT ≤ OFFSET_MAX)%Z →
  get_alias_contacts alias page_id w = (Exc DataError, w)
  ∧ (∀ alias_id request,
       args_page_id request = Some page_id →
       find_alias (db w) alias_id = Some alias →
       Alias.user_id alias = User.id (g_user request) →
       run (get_alias_contacts_route alias_id request) w = (Raised DataError, w)).
Proof.
  intros Hout.
  assert (get_alias_contacts alias page_id w = (Exc DataError, w)) as Heq.
  { unfold get_alias_contacts, limit_offset. unfold_m. by rewrite decide_False. }
  split; [exact Heq|]. intros alias_id request Harg Hsome Howner.
  unfold run, get_alias_contacts_route. rewrite Harg.
  rewrite bind_Alias_get, Hsome. rewrite decide_False by (by intros []).
  unfold mbind, M_bind. by rewrite Heq.
Qed.


(** ** Further properties of the handlers *)

(** *** Looking an alias up after a change of the alias table *)

Lemma find_alias_Some s alias_id a :
  find_alias s alias_id = Some a → a ∈ aliases s ∧ Alias.id a = alias_id.
Proof.
  unfold find_alias. intros Hfind.
  apply fmap_Some in Hfind as ([i x] & Hfind & ->).
  apply list_find_Some in Hfind as (Hi & Hid & _).
  split; [by eapply list_elem_of_lookup_2|done].
Qed.

Lemma find_alias_replace a s j :
  find_alias (with_aliases s (replace_alias a (aliases s))) j
  = (λ x, if decide (Alias.id x = Alias.id a) then a else x) <$> find_alias s j.
Proof.
  unfold find_alias, with_aliases, replace_alias. simpl.
  rewrite list_find_fmap.
  rewrite (list_find_ext _ (λ x, Alias.id x = j)).
  - by destruct (list_find _ (aliases s)) as [[i x]|].
  - intros x. simpl. destruct (decide (Alias.id x = Alias.id a)) as [Heq|]; [|done].
    by rewrite Heq.
Qed.

Lemma find_alias_replace_same a s a0 :
  find_alias s (Alias.id a) = Some a0 →
  find_alias (with_aliases s (replace_alias a (aliases s))) (Alias.id a) = Some a.
Proof.
  intros Hfind. rewrite find_alias_replace, Hfind. simpl.
  apply find_alias_Some in Hfind as [_ Hid]. by rewrite decide_True.
Qed.

Lemma find_alias_replace_other a s j :
  j ≠ Alias.id a →
  find_alias (with_aliases s (replace_alias a (aliases s))) j = find_alias s j.
Proof.
  intros Hne. rewrite find_alias_replace.
  destruct (find_alias s j) as [x|] eqn:Hfind; [|done]. simpl.
  apply find_alias_Some in Hfind as [_ Hid]. rewrite decide_False; [done|congruence].
Qed.

Lemma snd_shift {A} (o : option (nat * A)) : snd <$> (prod_map S id <$> o) = snd <$> o.
Proof. by destruct o as [[i x]|]. Qed.

Lemma find_alias_without s alias_id j :
  find_alias (without_alias s alias_id) j
  = if decide (j = alias_id) then None else find_alias s j.
Proof.
  unfold find_alias, without_alias. simpl.
  induction (aliases s) as [|x rows IH].
  { by destruct (decide (j = alias_id)). }
  rewrite filter_cons. destruct (decide (Alias.id x ≠ alias_id)) as [Hx|Hx].
  - cbn [list_find]. destruct (decide (Alias.id x = j)) as [Hj|Hj].
    + rewrite decide_False by congruence. done.
    + rewrite !snd_shift. exact IH.
  - apply dec_stable in Hx. rewrite IH. cbn [list_find].
    destruct (decide (j = alias_id)) as [Hj|Hj]; [done|].
    rewrite decide_False by congruence. by rewrite snd_shift.
Qed.

(** *** What the owner's requests do *)

Lemma delete_alias_owner alias_id request alias w :
  find_alias (db w) alias_id = Some alias →
  Alias.user_id alias = User.id (g_user request) →
  run (delete_alias alias_id request) w
  = (Responded {| payload := JDeleted true; status := 200 |},
     {| db := without_alias (db w) alias_id; rng := rng w; probes := probes w |}).
Proof.
  intros Hsome Howner. unfold run, delete_alias.
  rewrite bind_Alias_get, Hsome. by rewrite decide_False by (by intros []).
Qed.

Lemma toggle_alias_owner alias_id request alias w :
  find_alias (db w) alias_id = Some alias →
  Alias.user_id alias = User.id (g_user request) →
  run (toggle_alias alias_id request) w
  = (Responded {| payload := JEnabled (negb (Alias.enabled alias)); status := 200 |},
     {| db := with_aliases (db w) (replace_alias (toggled alias) (aliases (db w)));
        rng := rng w; probes := probes w |}).
Proof.
  intros Hsome Howner. unfold run, toggle_alias.
  rewrite bind_Alias_get, Hsome. by rewrite decide_False by (by intros []).
Qed.

Lemma update_alias_owner alias_id request alias w :
  truthy_json (get_json request) = true →
  find_alias (db w) alias_id = Some alias →
  Alias.user_id alias = User.id (g_user request) →
  let new_note := data_get (default ∅ (get_json request)) "note" in
  run (update_alias alias_id request) w
  = (Responded {| payload := JNote new_note; status := 200 |},
     {| db := with_aliases (db w) (replace_alias (with_note alias new_note) (aliases (db w)));
        rng := rng w; probes := probes w |}).
Proof.
  intros Hv Hsome Howner new_note. unfold run, update_alias.
  rewrite Hv. change (negb true) with false. cbv iota.
  rewrite bind_Alias_get, Hsome. by rewrite decide_False by (by intros []).
Qed.

(** *** The listings only read *)

Lemma get_alias_activities_world alias_id request w :
  snd (run (get_alias_activities alias_id request) w) = w.
Proof.
  unfold run, get_alias_activities.
  destruct (args_page_id request) as [page_id|]; [|done].
  rewrite bind_Alias_get. destruct (find_alias (db w) alias_id) as [alias|]; [|done].
  by destruct (decide _).
Qed.

Lemma get_alias_contacts_route_world alias_id request w :
  snd (run (get_alias_contacts_route alias_id request) w) = w.
Proof.
  unfold run, get_alias_contacts_route.
  destruct (args_page_id request) as [page_id|]; [|done].
  rewrite bind_Alias_get. destruct (find_alias (db w) alias_id) as [alias|]; [|done].
  destruct (decide _); [done|].
  unfold get_alias_contacts, limit_offset. unfold_m.
  by destruct (decide (_ ∧ _)).
Qed.

(** *** The generator, seen from its callers *)

Lemma generate_reply_email_attempts w :
  ∃ k, 1 ≤ k ≤ 1000
    ∧ generate_reply_email w
      = (Val (candidate (rng w + 25 * k)),
         {| db := db w; rng := rng w + 25 * (k + 1);
            probes := probes w ++ attempts w k |})
    ∧ (in_use (db w) (candidate (rng w + 25 * k)) → k = 1000).
Proof.
  unfold generate_reply_email. unfold mbind at 1. unfold M_bind at 1.
  rewrite new_reply_email_eq.
  set (w1 := {| db := db w; rng := rng w + 25; probes := probes w |}).
  destruct (for_range_spec 1000 (candidate (rng w)) w1)
    as (k & Hk & Hpos & Heq & _ & Hlast).
  exists k. split; [lia|]. split.
  - rewrite Heq. subst w1. simpl rng. simpl db. simpl probes.
    destruct k as [|j]; [lia|]. f_equal; [f_equal; f_equal; lia|].
    f_equal; [lia|]. f_equal. unfold attempts.
    rewrite <- (fmap_S_seq 0), <- list_fmap_compose.
    apply list_fmap_ext. intros _ i _. simpl. f_equal. lia.
  - intros Hin. destruct k as [|j]; [lia|]. apply (Hlast j); [done|].
    subst w1. simpl. by replace (rng w + 25 + 25 * j) with (rng w + 25 * S j) by lia.
Qed.

(** *** Every way a request can change the store *)

Lemma handle_db_cases op alias_id request w :
  let '(o, w') := run (handle op alias_id request) w in
  db w' = db w
  ∨ ∃ alias r,
      find_alias (db w) alias_id = Some alias
      ∧ Alias.user_id alias = User.id (g_user request)
      ∧ o = Responded r
      ∧ ((op = OpDelete ∧ status r = 200 ∧ db w' = without_alias (db w) alias_id)
         ∨ (∃ a, (op = OpToggle ∧ a = toggled alias
                  ∨ op = OpUpdate ∧ ∃ new_note, a = with_note alias new_note)
                 ∧ status r = 200
                 ∧ Alias.id a = alias_id
                 ∧ db w' = with_aliases (db w) (replace_alias a (aliases (db w))))
         ∨ (∃ c, op = OpCreate ∧ status r = 201
                 ∧ db w' = add_contact (db w) c
                 ∧ Contact.gen_email_id c = alias_id
                 ∧ ¬ in_use (db w) (Contact.reply_email c)
                 ∧ ¬ has_contact (db w) (Contact.gen_email_id c) (Contact.website_email c))).
Proof.
  destruct (validates op request) eqn:Hv.
  2:{ rewrite handle_invalid by done. by left. }
  destruct (find_alias (db w) alias_id) as [alias|] eqn:Hsome.
  2:{ rewrite handle_not_found by done. by left. }
  destruct (decide (Alias.user_id alias = User.id (g_user request))) as [Howner|Hne].
  2:{ rewrite (handle_forbidden _ _ _ alias) by done. by left. }
  pose proof (find_alias_Some _ _ _ Hsome) as [_ Hid].
  destruct op; simpl in Hv |- *.
  - rewrite (delete_alias_owner _ _ alias) by done.
    right. exists alias. eexists. do 3 (split; [done|]). left. done.
  - rewrite (toggle_alias_owner _ _ alias) by done.
    right. exists alias. eexists. do 3 (split; [done|]). right. left.
    exists (toggled alias). split; [by left|]. done.
  - pose proof (get_alias_activities_world alias_id request w) as Hw.
    destruct (run (get_alias_activities alias_id request) w) as [o w'].
    simpl in Hw. left. by rewrite Hw.
  - rewrite (update_alias_owner _ _ alias) by done.
    right. exists alias. eexists. do 3 (split; [done|]). right. left.
    eexists (with_note alias _). split; [right; split; [done|by eexists]|]. done.
  - pose proof (get_alias_contacts_route_world alias_id request w) as Hw.
    destruct (run (get_alias_contacts_route alias_id request) w) as [o w'].
    simpl in Hw. left. by rewrite Hw.
  - pose proof (create_contact_route_cases alias_id request w) as Hcases.
    destruct (run (create_contact_route alias_id request) w) as [o w'].
    destruct Hcases as [[Hdb _]|(a & reply_email & Ha & Hfresh & Hnew & Hdb & Ho)];
      [by left|].
    rewrite Hsome in Ha. simplify_eq.
    right. exists a. eexists. do 3 (split; [done|]). right. right.
    eexists. split; [done|]. split; [done|]. split; [exact Hdb|]. done.
Qed.

(** *** Toggling and updating *)

Lemma toggled_toggled alias : toggled (toggled alias) = alias.
Proof. destruct alias. unfold toggled. simpl. by rewrite negb_involutive. Qed.

Lemma replace_alias_twice a rows : replace_alias a (replace_alias a rows) = replace_alias a rows.
Proof.
  unfold replace_alias. rewrite <- list_fmap_compose.
  apply list_fmap_ext. intros _ x _. simpl.
  destruct (decide (Alias.id x = Alias.id a)) as [Hx|Hx].
  - by rewrite decide_True.
  - by rewrite decide_False.
Qed.

(** With ids as a key, overwriting a row and writing it back is the
    identity. *)
Lemma replace_alias_restore a a' rows :
  NoDup (Alias.id <$> rows) → a ∈ rows → Alias.id a' = Alias.id a →
  replace_alias a (replace_alias a' rows) = rows.
Proof.
  intros Hkey Ha Hid. unfold replace_alias. rewrite <- list_fmap_compose.
  rewrite <- (list_fmap_id rows) at 2.
  apply list_fmap_ext. intros i x Hx. simpl.
  apply list_elem_of_lookup in Ha as [j Hj].
  destruct (decide (Alias.id x = Alias.id a')) as [Heq|Hne].
  - rewrite decide_True by done.
    assert (i = j) as ->; [|congruence].
    apply (NoDup_lookup _ i j (Alias.id x) Hkey).
    + by rewrite list_lookup_fmap, Hx.
    + rewrite list_lookup_fmap, Hj. simpl. congruence.
  - rewrite decide_False; [done|congruence].
Qed.

(** X1. An owner's toggle answers 200 with the negation of the alias's
    [enabled] flag, and afterwards the alias is the same row with that flag
    negated; the contacts and the logs are as before. *)
Theorem toggle_alias_flips alias_id request alias w :
  find_alias (db w) alias_id = Some alias →
  Alias.user_id alias = User.id (g_user request) →
  let '(o, w') := run (toggle_alias alias_id request) w in
  o = Responded {| payload := JEnabled (negb (Alias.enabled alias)); status := 200 |}
  ∧ find_alias (db w') alias_id = Some (toggled alias)
  ∧ contacts (db w') = contacts (db w)
  ∧ email_logs (db w') = email_logs (db w).
Proof.
  intros Hsome Howner. rewrite (toggle_alias_owner _ _ alias) by done.
  split; [done|]. split; [|done]. simpl.
  pose proof (find_alias_Some _ _ _ Hsome) as [_ Hid]. subst alias_id.
  by apply (find_alias_replace_same (toggled alias) (db w) alias).
Qed.

(** X2. With alias ids unique, two toggles in a row by the owner give the
    world back as it was, and the second one reports the original flag. *)
Theorem toggle_alias_twice alias_id request alias w :
  alias_ids_unique (db w) →
  find_alias (db w) alias_id = Some alias →
  Alias.user_id alias = User.id (g_user request) →
  let w1 := snd (run (toggle_alias alias_id request) w) in
  run (toggle_alias alias_id request) w1
  = (Responded {| payload := JEnabled (Alias.enabled alias); status := 200 |}, w).
Proof.
  intros Hkey Hsome Howner.
  pose proof (find_alias_Some _ _ _ Hsome) as [Hin Hid].
  rewrite (toggle_alias_owner _ _ alias) by done. simpl.
  rewrite (toggle_alias_owner _ _ (toggled alias)).
  - simpl. rewrite negb_involutive, toggled_toggled. f_equal.
    unfold with_aliases. simpl.
    rewrite (replace_alias_restore alias (toggled alias)) by done.
    by destruct w as [[]].
  - simpl. subst alias_id.
    by apply (find_alias_replace_same (toggled alias) (db w) alias).
  - done.
Qed.

(** An owner's update with a non-empty object as body answers 200 with the
    value of the body's [note] field and stores it in the alias, whose other
    fields and contacts stay the same; a body without a [note] key, or with a
    null one, erases the note. *)
Lemma update_alias_object_note alias_id request alias w :
  truthy_json (get_json request) = true →
  find_alias (db w) alias_id = Some alias →
  Alias.user_id alias = User.id (g_user request) →
  let new_note := data_get (default ∅ (get_json request)) "note" in
  let '(o, w') := run (update_alias alias_id request) w in
  o = Responded {| payload := JNote new_note; status := 200 |}
  ∧ find_alias (db w') alias_id = Some (with_note alias new_note)
  ∧ contacts (db w') = contacts (db w)
  ∧ (default ∅ (get_json request) !! "note" = None
     ∨ default ∅ (get_json request) !! "note" = Some None →
     Alias.note <$> find_alias (db w') alias_id = Some None).
Proof.
  intros Hv Hsome Howner new_note.
  rewrite (update_alias_owner _ _ alias) by done.
  pose proof (find_alias_Some _ _ _ Hsome) as [_ Hid].
  assert (find_alias (with_aliases (db w)
            (replace_alias (with_note alias new_note) (aliases (db w)))) alias_id
          = Some (with_note alias new_note)) as Hfound.
  { subst alias_id.
    by apply (find_alias_replace_same (with_note alias new_note) (db w) alias). }
  split; [done|]. split; [exact Hfound|]. split; [done|].
  intros Hnote. simpl. fold new_note. rewrite Hfound. simpl. f_equal.
  subst new_note. unfold data_get. by destruct Hnote as [-> | ->].
Qed.

(** X4. Repeating an owner's update changes nothing more: the second call
    gives the same answer and the same store as the first. *)
Theorem update_alias_idempotent alias_id request alias w :
  truthy_json (get_json request) = true →
  find_alias (db w) alias_id = Some alias →
  Alias.user_id alias = User.id (g_user request) →
  let '(o1, w1) := run (update_alias alias_id request) w in
  run (update_alias alias_id request) w1 = (o1, w1).
Proof.
  intros Hv Hsome Howner.
  pose proof (find_alias_Some _ _ _ Hsome) as [_ Hid].
  rewrite (update_alias_owner _ _ alias) by done.
  set (new_note := data_get (default ∅ (get_json request)) "note").
  rewrite (update_alias_owner _ _ (with_note alias new_note)); [|done| |done].
  - fold new_note. simpl. f_equal. f_equal. unfold with_aliases. simpl.
    f_equal. apply (replace_alias_twice (with_note alias new_note)).
  - simpl. subst alias_id.
    by apply (find_alias_replace_same (with_note alias new_note) (db w) alias).
Qed.

(** *** What a request leaves alone *)

(** X5. A request addressed to one alias never changes another alias:
    looking up any other id gives the same row before and after. *)
Theorem other_aliases_untouched op alias_id request w j :
  j ≠ alias_id →
  find_alias (db (snd (run (handle op alias_id request) w))) j = find_alias (db w) j.
Proof.
  intros Hj. pose proof (handle_db_cases op alias_id request w) as Hcases.
  destruct (run (handle op alias_id request) w) as [o w']. simpl.
  destruct Hcases as [->|(alias & r & _ & _ & _ & Hchange)]; [done|].
  destruct Hchange as [(_ & _ & ->)|[(a & _ & _ & Hid & ->)|(c & _ & _ & -> & _)]].
  - rewrite find_alias_without. by rewrite decide_False.
  - apply find_alias_replace_other. congruence.
  - done.
Qed.

Lemma contacts_for_without s alias_id j :
  j ≠ alias_id → contacts_for (without_alias s alias_id) j = contacts_for s j.
Proof.
  intros Hj. unfold contacts_for, without_alias. simpl.
  rewrite list_filter_filter. apply list_filter_iff. intros c. split.
  - by intros [? _].
  - intros <-. done.
Qed.

(** X6. A request addressed to one alias never changes the contacts of
    another alias. *)
Theorem other_contacts_untouched op alias_id request w j :
  j ≠ alias_id →
  contacts_for (db (snd (run (handle op alias_id request) w))) j = contacts_for (db w) j.
Proof.
  intros Hj. pose proof (handle_db_cases op alias_id request w) as Hcases.
  destruct (run (handle op alias_id request) w) as [o w']. simpl.
  destruct Hcases as [->|(alias & r & _ & _ & _ & Hchange)]; [done|].
  destruct Hchange as [(_ & _ & ->)|[(a & _ & _ & Hid & ->)|(c & _ & _ & -> & Hc & _)]].
  - by apply contacts_for_without.
  - done.
  - unfold contacts_for, add_contact. simpl. rewrite filter_app.
    rewrite (filter_cons _ c), decide_False by congruence.
    by rewrite filter_nil, app_nil_r.
Qed.

(** X11. The store changes only when the requester owns the alias the
    request names, and every change is acknowledged with a 200 or a 201. *)
Theorem store_changes_only_for_owner op alias_id request w :
  db (snd (run (handle op alias_id request) w)) ≠ db w →
  ∃ alias r,
    find_alias (db w) alias_id = Some alias
    ∧ Alias.user_id alias = User.id (g_user request)
    ∧ fst (run (handle op alias_id request) w) = Responded r
    ∧ (status r = 200 ∨ status r = 201).
Proof.
  intros Hchanged. pose proof (handle_db_cases op alias_id request w) as Hcases.
  destruct (run (handle op alias_id request) w) as [o w']. simpl in *.
  destruct Hcases as [Hdb|(alias & r & Hsome & Howner & -> & Hchange)]; [done|].
  exists alias, r. do 3 (split; [done|]).
  destruct Hchange as [(_ & Hs & _)|[(a & _ & Hs & _)|(c & _ & Hs & _)]]; auto.
Qed.

(** *** Uniqueness of (alias, correspondent) *)

Lemma add_contact_pair_unique s c :
  pair_unique s →
  ¬ has_contact s (Contact.gen_email_id c) (Contact.website_email c) →
  pair_unique (add_contact s c).
Proof.
  unfold pair_unique, has_contact. simpl. intros Hs Hnew.
  rewrite fmap_app. apply NoDup_app. split; [done|]. split; [|apply NoDup_singleton].
  intros x Hx Hin. apply list_elem_of_singleton in Hin as ->.
  apply Hnew. apply list_elem_of_fmap in Hx as (y & Heq & Hy).
  apply Exists_exists. exists y. split; [done|].
  unfold contact_key in Heq. by simplify_eq.
Qed.

(** Whatever sequence of requests the API serves, starting from a store
    where no two contacts share their alias and correspondent address, no
    two contacts ever do. *)
Lemma contact_pair_unique calls w :
  pair_unique (db w) →
  pair_unique (db (exec calls w))
  ∧ ∀ i j c1 c2,
      contacts (db (exec calls w)) !! i = Some c1 →
      contacts (db (exec calls w)) !! j = Some c2 →
      Contact.gen_email_id c1 = Contact.gen_email_id c2 →
      Contact.website_email c1 = Contact.website_email c2 →
      i = j.
Proof.
  intros Hw.
  assert (pair_unique (db (exec calls w))) as Hinv.
  { revert w Hw. unfold exec.
    induction calls as [|[op alias_id request] calls IH]; intros w Hw; [done|].
    simpl. apply IH. unfold step. simpl.
    pose proof (handle_db_cases op alias_id request w) as Hcases.
    destruct (run (handle op alias_id request) w) as [o w']. simpl.
    destruct Hcases as [->|(alias & r & _ & _ & _ & Hchange)]; [done|].
    destruct Hchange as [(_ & _ & ->)|[(a & _ & _ & _ & ->)|(c & _ & _ & -> & _ & _ & Hnew)]].
    - unfold pair_unique, without_alias. simpl. by apply NoDup_fmap_filter.
    - done.
    - by apply add_contact_pair_unique. }
  split; [done|]. intros i j c1 c2 Hi Hj Hgen Hemail.
  apply (NoDup_lookup _ i j (contact_key c1) Hinv).
  - by rewrite list_lookup_fmap, Hi.
  - rewrite list_lookup_fmap, Hj. simpl. unfold contact_key. by rewrite Hgen, Hemail.
Qed.

(** *** The three listings *)

(** X8. The three GET handlers never change the world, whoever asks and
    whatever the outcome. Without a usable [page_id] each of them answers
    the same 400; with one, [get_aliases] answers one summary per row of
    [get_alias_info], in the same order, for the requesting user. *)
Theorem listings_read_only alias_id request w :
  snd (get_aliases request w) = w
  ∧ snd (run (get_alias_activities alias_id request) w) = w
  ∧ snd (run (get_alias_contacts_route alias_id request) w) = w
  ∧ (args_page_id request = None →
     fst (get_aliases request w)
     = Ret (jsonify_error "page_id must be provided in request query" 400)
     ∧ fst (run (get_alias_activities alias_id request) w)
       = Responded (jsonify_error "page_id must be provided in request query" 400)
     ∧ fst (run (get_alias_contacts_route alias_id request) w)
       = Responded (jsonify_error "page_id must be provided in request query" 400))
  ∧ (∀ page_id, args_page_id request = Some page_id →
       fst (get_aliases request w)
       = Val (alias_summary <$> get_alias_info (db w) (g_user request) page_id)).
Proof.
  split; [|split; [|split; [|split]]].
  - unfold get_aliases. by destruct (args_page_id request).
  - apply get_alias_activities_world.
  - apply get_alias_contacts_route_world.
  - intros Hnone. unfold get_aliases, run, get_alias_activities, get_alias_contacts_route.
    by rewrite Hnone.
  - intros page_id Hsome. unfold get_aliases. by rewrite Hsome.
Qed.

(** *** Pages *)

Lemma join_pages {A} (rows : list A) limit n :
  mjoin ((λ p, take limit (drop (p * limit) rows)) <$> seq 0 n) = take (n * limit) rows.
Proof.
  induction n as [|n IH]; [done|].
  rewrite seq_S, fmap_app, join_app, IH. simpl. rewrite app_nil_r.
  rewrite take_take_drop. f_equal. lia.
Qed.

Lemma fmap_join {A B} (f : A → B) (ls : list (list A)) :
  f <$> mjoin ls = mjoin (fmap f <$> ls).
Proof.
  induction ls as [|l ls IH]; [done|]. simpl. by rewrite fmap_app, IH.
Qed.

Lemma length_contacts_of s alias : length (contacts_of s alias) ≤ length (contacts s).
Proof.
  unfold contacts_of. rewrite merge_sort_Permutation. apply length_filter.
Qed.

(** In a store that holds no more rows than OFFSET can count, a page whose
    offset is out of range lies past the last contact. *)
Lemma listed_page alias p w :
  (Z.of_nat (length (contacts (db w))) ≤ OFFSET_MAX)%Z →
  listed alias w p = serialize_contact (db w) <$> page_of (db w) alias p.
Proof.
  intros Hsize. destruct (page_offset (Z.of_nat p)) as [Hnonneg Hskip]; [lia|].
  unfold listed, get_alias_contacts, limit_offset, page_of. unfold_m.
  destruct (decide (_ ∧ _)) as [Hin|Hout]; simpl.
  - by rewrite Hskip, Nat2Z.id.
  - rewrite drop_ge; [by rewrite take_nil|].
    pose proof (length_contacts_of (db w) alias). nia.
Qed.

(** X10. In a store that holds no more contacts than OFFSET can count:
    read one after the other, pages 0 to n-1 of an alias's contacts are its
    first [n * PAGE_LIMIT] contacts by decreasing id, each exactly once; once
    [n * PAGE_LIMIT] reaches the number of contacts of the alias, they are
    all of them. *)
Theorem pages_concatenate alias w n :
  (Z.of_nat (length (contacts (db w))) ≤ OFFSET_MAX)%Z →
  mjoin (listed alias w <$> seq 0 n)
  = serialize_contact (db w) <$> take (n * PAGE_LIMIT) (contacts_of (db w) alias)
  ∧ (length (contacts_for (db w) (Alias.id alias)) ≤ n * PAGE_LIMIT →
     mjoin (listed alias w <$> seq 0 n)
     = serialize_contact (db w) <$> contacts_of (db w) alias).
Proof.
  intros Hsize.
  assert (mjoin (listed alias w <$> seq 0 n)
          = serialize_contact (db w) <$> take (n * PAGE_LIMIT) (contacts_of (db w) alias))
    as Heq.
  { rewrite <- join_pages. rewrite fmap_join, <- list_fmap_compose.
    f_equal. apply list_fmap_ext. intros _ p _. simpl.
    by apply listed_page. }
  split; [exact Heq|]. intros Hall. rewrite Heq. f_equal. apply take_ge.
  unfold contacts_of. rewrite merge_sort_Permutation. exact Hall.
Qed.

(** *** More on creating a contact *)

(** X9. The duplicate check comes after the generator: a request that ends
    in the 409 of an already recorded contact has still made between 1 and
    1000 lookups of candidate reply addresses and consumed the random tokens
    for them, while the store itself is untouched. *)
Theorem duplicate_detected_after_generator alias_id request alias w :
  truthy_json (get_json request) = true →
  find_alias (db w) alias_id = Some alias →
  Alias.user_id alias = User.id (g_user request) →
  has_contact (db w) (Alias.id alias) (website_email_of request) →
  ∃ k, 1 ≤ k ≤ 1000
    ∧ run (create_contact_route alias_id request) w
      = (Responded (jsonify_error "Contact already added" 409),
         {| db := db w; rng := rng w + 25 * (k + 1);
            probes := probes w ++ attempts w k |})
    ∧ length (attempts w k) = k.
Proof.
  intros Hv Hsome Howner Hdup.
  destruct (generate_reply_email_attempts w) as (k & Hk & Hgen & _).
  exists k. split; [done|]. split.
  - unfold run. rewrite (create_contact_route_owner _ _ alias) by done.
    unfold mbind at 1. unfold M_bind at 1. rewrite Hgen.
    unfold Contact_get_by. unfold_m. cbn [db].
    destruct (snd <$> list_find _ (contacts (db w))) as [c|] eqn:Hfind; [done|].
    apply find_None in Hfind. by destruct Hfind.
  - unfold attempts. by rewrite length_fmap, length_seq.
Qed.

(** X13. A 201 means that exactly one contact was appended: it belongs to
    the alias named in the URL, its reply address is the candidate of the
    generator's last attempt, of the form [ra+<25 characters>@<domain>], and
    that address was not in use before; the alias table is unchanged. *)
Theorem created_contact_shape alias_id request w r w' :
  run (create_contact_route alias_id request) w = (Responded r, w') →
  status r = 201 →
  ∃ c k token,
    1 ≤ k ≤ 1000
    ∧ contacts (db w') = (contacts (db w) ++ [c])%list
    ∧ aliases (db w') = aliases (db w)
    ∧ Contact.gen_email_id c = alias_id
    ∧ Contact.reply_email c = candidate (rng w + 25 * k)
    ∧ Contact.reply_email c = "ra+" +:+ token +:+ "@" +:+ EMAIL_DOMAIN
    ∧ String.length token = 25
    ∧ ¬ in_use (db w) (Contact.reply_email c)
    ∧ probes w' = (probes w ++ attempts w k)%list.
Proof.
  intros Hrun Hstatus.
  destruct (truthy_json (get_json request)) eqn:Hv.
  2:{ rewrite (handle_invalid OpCreate) in Hrun by done. by simplify_eq. }
  destruct (find_alias (db w) alias_id) as [alias|] eqn:Hsome.
  2:{ rewrite (handle_not_found OpCreate) in Hrun by done. by simplify_eq. }
  destruct (decide (Alias.user_id alias = User.id (g_user request))) as [Howner|Hne].
  2:{ rewrite (handle_forbidden OpCreate _ _ alias) in Hrun by done. by simplify_eq. }
  destruct (decide (has_contact (db w) (Alias.id alias) (website_email_of request)))
    as [Hdup|Hnew].
  { destruct (create_conflict alias_id request alias w) as (w1 & Heq & _); [done..|].
    rewrite Heq in Hrun. by simplify_eq. }
  destruct (generate_reply_email_attempts w) as (k & Hk & Hgen & _).
  destruct (decide (in_use (db w) (candidate (rng w + 25 * k)))) as [Hused|Hfresh].
  { rewrite (create_integrity _ _ alias w _ _ Hv Hsome Howner Hgen Hnew Hused) in Hrun.
    by simplify_eq. }
  pose proof (find_alias_Some _ _ _ Hsome) as [_ Hid].
  rewrite (create_created _ _ alias w _ _ Hv Hsome Howner Hgen Hnew Hfresh) in Hrun.
  injection Hrun as <- <-.
  eexists _, k, (read_tape 25 (rng w + 25 * k)). simpl.
  split; [done|]. split; [done|]. split; [done|]. split; [done|].
  split; [done|]. split; [done|]. split; [done|]. done.
Qed.

Lemma py_or_falsy a b : truthy_str a = false → py_or a b = b.
Proof. by destruct a as [[|c s']|]. Qed.

(** X12. A body whose [contact] field is missing, null or empty is not
    rejected: the parser is not even consulted, and when the alias has no
    contact with the empty address yet (and the generated reply address is
    free) the request is answered 201, a contact with the empty
    [website_email] is stored, and the response shows an empty [contact]. *)
Theorem blank_contact_accepted alias_id request alias w :
  truthy_json (get_json request) = true →
  truthy_str (contact_email_of request) = false →
  find_alias (db w) alias_id = Some alias →
  Alias.user_id alias = User.id (g_user request) →
  ¬ has_contact (db w) alias_id "" →
  (∀ reply_email w1, generate_reply_email w = (Val reply_email, w1) →
                     ¬ in_use (db w) reply_email) →
  ∃ c j w',
    run (create_contact_route alias_id request) w
    = (Responded {| payload := JContact j; status := 201 |}, w')
    ∧ contacts (db w') = (contacts (db w) ++ [c])%list
    ∧ Contact.website_email c = ""
    ∧ Contact.website_from c = contact_email_of request
    ∧ contact j = "".
Proof.
  intros Hv Hblank Hsome Howner Hnew Hfree.
  pose proof (find_alias_Some _ _ _ Hsome) as [_ Hid].
  assert (website_email_of request = "") as Hemail.
  { unfold website_email_of, parseaddr. by rewrite Hblank. }
  destruct (generate_reply_email_total w) as (reply_email & w1 & Hgen & _).
  pose proof (create_created alias_id request alias w reply_email w1 Hv Hsome Howner Hgen)
    as Hcreated.
  rewrite Hemail, Hid in Hcreated. specialize (Hcreated Hnew (Hfree _ _ Hgen)).
  simpl in Hcreated. eexists _, _, _. split; [exact Hcreated|].
  simpl. split; [done|]. split; [done|]. split; [done|]. by apply py_or_falsy.
Qed.

(** *** Deleting *)

(** X14. An owner's delete answers 200 with [deleted] true; afterwards no
    alias has that id, and neither the random source nor the lookup trace
    has moved. *)
Theorem delete_alias_removes alias_id request alias w :
  find_alias (db w) alias_id = Some alias →
  Alias.user_id alias = User.id (g_user request) →
  let '(o, w') := run (delete_alias alias_id request) w in
  o = Responded {| payload := JDeleted true; status := 200 |}
  ∧ find_alias (db w') alias_id = None
  ∧ (∀ a, a ∈ aliases (db w') → a ∈ aliases (db w) ∧ Alias.id a ≠ alias_id)
  ∧ rng w' = rng w
  ∧ probes w' = probes w.
Proof.
  intros Hsome Howner. rewrite (delete_alias_owner _ _ alias) by done.
  split; [done|]. split; [|split; [|done]].
  - simpl. rewrite find_alias_without. by rewrite decide_True.
  - simpl. intros a Ha. apply list_elem_of_filter in Ha as [Hid Ha]. done.
Qed.

(** *** Status codes *)

(** X15. A handler that answers does so with 400 (only when the input
    validation fails), 403, 200 (never for create-contact), or, for
    create-contact only, 201 or 409. *)
Theorem response_statuses op alias_id request w r :
  fst (run (handle op alias_id request) w) = Responded r →
  (status r = 400 ∧ validates op request = false)
  ∨ status r = 403
  ∨ (status r = 200 ∧ op ≠ OpCreate)
  ∨ (op = OpCreate ∧ (status r = 201 ∨ status r = 409)).
Proof.
  intros Hrun.
  destruct (validates op request) eqn:Hv.
  2:{ rewrite handle_invalid in Hrun by done. simpl in Hrun. simplify_eq.
      left. by destruct op. }
  destruct (find_alias (db w) alias_id) as [alias|] eqn:Hsome.
  2:{ rewrite handle_not_found in Hrun by done. by simplify_eq. }
  destruct (decide (Alias.user_id alias = User.id (g_user request))) as [Howner|Hne].
  2:{ rewrite (handle_forbidden _ _ _ alias) in Hrun by done. simpl in Hrun.
      simplify_eq. right. by left. }
  destruct op; simpl in Hv, Hrun.
  - rewrite (delete_alias_owner _ _ alias) in Hrun by done. simpl in Hrun.
    simplify_eq. right. right. by left.
  - rewrite (toggle_alias_owner _ _ alias) in Hrun by done. simpl in Hrun.
    simplify_eq. right. right. by left.
  - apply bool_decide_eq_true in Hv as [page_id Hpage].
    rewrite (get_alias_activities_ok _ _ page_id alias) in Hrun by done.
    simpl in Hrun. simplify_eq. right. right. by left.
  - rewrite (update_alias_owner _ _ alias) in Hrun by done. simpl in Hrun.
    simplify_eq. right. right. by left.
  - apply bool_decide_eq_true in Hv as [page_id Hpage].
    unfold run, get_alias_contacts_route in Hrun. rewrite Hpage in Hrun.
    rewrite bind_Alias_get, Hsome in Hrun.
    rewrite decide_False in Hrun by (by intros []).
    unfold get_alias_contacts, limit_offset in Hrun. unfold_m.
    destruct (decide (_ ∧ _)); simpl in Hrun; simplify_eq.
    right. right. by left.
  - destruct (decide (has_contact (db w) (Alias.id alias) (website_email_of request)))
      as [Hdup|Hnew].
    { destruct (create_conflict alias_id request alias w) as (w1 & Heq & _); [done..|].
      rewrite Heq in Hrun. simpl in Hrun. simplify_eq.
      do 3 right. split; [done|]. by right. }
    destruct (generate_reply_email_total w) as (reply_email & w1 & Hgen & _).
    destruct (decide (in_use (db w) reply_email)) as [Hused|Hfresh].
    { rewrite (create_integrity _ _ alias w _ _ Hv Hsome Howner Hgen Hnew Hused) in Hrun.
      by simplify_eq. }
    rewrite (create_created _ _ alias w _ _ Hv Hsome Howner Hgen Hnew Hfresh) in Hrun.
    simpl in Hrun. simplify_eq. do 3 right. split; [done|]. by left.
Qed.

(** *** What no request ever does *)

(** X16. No sequence of requests creates an alias or changes the id, the
    owner, the address or the creation time of one: every alias found
    afterwards was there before with the same values in these fields. *)
Theorem alias_identity_kept calls w j a' :
  find_alias (db (exec calls w)) j = Some a' →
  ∃ a, find_alias (db w) j = Some a
    ∧ Alias.id a' = Alias.id a
    ∧ Alias.user_id a' = Alias.user_id a
    ∧ Alias.email a' = Alias.email a
    ∧ Alias.created_at a' = Alias.created_at a.
Proof.
  revert w. unfold exec.
  induction calls as [|[op alias_id request] calls IH]; intros w Hfound.
  { exists a'. done. }
  simpl in Hfound. apply IH in Hfound as (a1 & Hfound & Hid & Huser & Hemail & Htime).
  assert (∃ a, find_alias (db w) j = Some a
             ∧ Alias.id a1 = Alias.id a ∧ Alias.user_id a1 = Alias.user_id a
             ∧ Alias.email a1 = Alias.email a
             ∧ Alias.created_at a1 = Alias.created_at a) as (a & Ha & Hrest).
  { unfold step in Hfound. simpl in Hfound.
    pose proof (handle_db_cases op alias_id request w) as Hcases.
    destruct (run (handle op alias_id request) w) as [o w']. simpl in Hfound.
    destruct Hcases as [Hdb|(alias & r & Hsome & _ & _ & Hchange)].
    { rewrite Hdb in Hfound. by exists a1. }
    destruct Hchange as [(_ & _ & Hdb)|[(a & Hform & _ & Ha & Hdb)|(c & _ & _ & Hdb & _)]];
      rewrite Hdb in Hfound.
    - rewrite find_alias_without in Hfound.
      destruct (decide (j = alias_id)); [done|]. by exists a1.
    - rewrite find_alias_replace in Hfound.
      destruct (find_alias (db w) j) as [x|] eqn:Hx; [|done]. simpl in Hfound.
      exists x. split; [done|].
      destruct (decide (Alias.id x = Alias.id a)) as [Hsame|Hother]; simplify_eq; [|done].
      pose proof (find_alias_Some _ _ _ Hx) as [_ Hxid].
      pose proof (find_alias_Some _ _ _ Hsome) as [_ Haid].
      assert (x = alias) as -> by congruence.
      destruct Hform as [[_ ->]|[_ [new_note ->]]]; done.
    - by exists a1. }
  exists a. split; [done|]. destruct Hrest as (? & ? & ? & ?).
  repeat split; congruence.
Qed.

(** X17. Contacts are never edited, and they disappear only with their
    alias: after any request each contact of before is still in the table,
    unchanged, unless the request was the owner's delete of the alias it
    belongs to. *)
Theorem contacts_persist op alias_id request w c :
  c ∈ contacts (db w) →
  c ∈ contacts (db (snd (run (handle op alias_id request) w)))
  ∨ (op = OpDelete ∧ Contact.gen_email_id c = alias_id
     ∧ ∃ alias, find_alias (db w) alias_id = Some alias
              ∧ Alias.user_id alias = User.id (g_user request)).
Proof.
  intros Hc. pose proof (handle_db_cases op alias_id request w) as Hcases.
  destruct (run (handle op alias_id request) w) as [o w']. simpl.
  destruct Hcases as [->|(alias & r & Hsome & Howner & _ & Hchange)]; [by left|].
  destruct Hchange as [(-> & _ & ->)|[(a & _ & _ & _ & ->)|(x & _ & _ & -> & _)]].
  - destruct (decide (Contact.gen_email_id c = alias_id)) as [Hgen|Hgen].
    + right. split; [done|]. split; [done|]. by exists alias.
    + left. simpl. by apply list_elem_of_filter.
  - by left.
  - left. simpl. apply elem_of_app. by left.
Qed.

(** *** Bodies of any shape *)

(** On a request whose body is an object, or absent, the two embeddings of
    each handler are the same computation. *)
Lemma update_alias_body_eq alias_id request w :
  update_alias alias_id request w
  = update_alias_body alias_id (g_user request) (body_of (get_json request)) w.
Proof.
  unfold update_alias, update_alias_body.
  destruct (get_json request) as [d|]; simpl; [|done].
  destruct (bool_decide (d = ∅)); simpl; [done|].
  rewrite !bind_Alias_get. destruct (find_alias (db w) alias_id) as [alias|]; [|done].
  by destruct (decide _).
Qed.

Lemma create_contact_route_body_eq alias_id request w :
  create_contact_route alias_id request w
  = create_contact_route_body alias_id (g_user request) (body_of (get_json request)) w.
Proof.
  unfold create_contact_route, create_contact_route_body.
  destruct (get_json request) as [d|]; simpl; [|done].
  destruct (bool_decide (d = ∅)); simpl; [done|].
  rewrite !bind_Alias_get. destruct (find_alias (db w) alias_id) as [alias|]; [|done].
  by destruct (decide _).
Qed.

(** X3. An owner's update of an existing alias with a truthy body. When the
    body is a JSON object the answer is 200 with the value of its [note]
    field, which is stored in the alias, whose other fields and contacts stay
    the same; an object without a [note] key, or with a null one, erases the
    note. When the body is not an object (an array, a string, a number,
    true), [data.get] raises AttributeError, which nothing catches, and the
    world is left as it was. *)
Theorem update_alias_sets_note alias_id user data alias w :
  truthy_body data = true →
  find_alias (db w) alias_id = Some alias →
  Alias.user_id alias = User.id user →
  let '(o, w') := run (update_alias_body alias_id user data) w in
  match data with
  | JsonObject d =>
      o = Responded {| payload := JNote (data_get d "note"); status := 200 |}
      ∧ find_alias (db w') alias_id = Some (with_note alias (data_get d "note"))
      ∧ contacts (db w') = contacts (db w)
      ∧ (d !! "note" = None ∨ d !! "note" = Some None →
         Alias.note <$> find_alias (db w') alias_id = Some None)
      ∧ (∀ request, g_user request = user → get_json request = Some d →
                    run (update_alias alias_id request) w = (o, w'))
  | _ => o = Raised AttributeError ∧ w' = w
  end.
Proof.
  intros Hv Hsome Howner. destruct data as [|d|truth]; simpl in Hv; [done| |].
  - set (request := {| g_user := user; get_json := Some d; args_page_id := None |}).
    pose proof (update_alias_object_note alias_id request alias w Hv Hsome Howner) as Hobj.
    assert (∀ request', g_user request' = user → get_json request' = Some d →
              run (update_alias alias_id request') w
              = run (update_alias_body alias_id user (JsonObject d)) w) as Hsame.
    { intros request' Huser Hjson. unfold run.
      by rewrite update_alias_body_eq, Huser, Hjson. }
    rewrite (Hsame request eq_refl eq_refl) in Hobj.
    destruct (run (update_alias_body alias_id user (JsonObject d)) w) as [o w'].
    simpl in Hobj. destruct Hobj as (Ho & Hfound & Hcontacts & Hnote).
    split; [done|]. split; [done|]. split; [done|]. split; [done|]. exact Hsame.
  - subst truth. unfold run, update_alias_body. simpl.
    rewrite bind_Alias_get, Hsome. by rewrite decide_False by (by intros []).
Qed.

(** X18. An owner's create-contact on an existing alias with a truthy body
    that is not a JSON object raises AttributeError at [data.get], which
    nothing catches: the generator has not run yet, no lookup was made and
    the world is left as it was. On an object the handler is
    [create_contact_route]. *)
Theorem create_contact_route_non_object alias_id user alias w :
  find_alias (db w) alias_id = Some alias →
  Alias.user_id alias = User.id user →
  run (create_contact_route_body alias_id user (JsonOther true)) w
  = (Raised AttributeError, w)
  ∧ error_class (Raised AttributeError) = Some Internal
  ∧ (∀ request, g_user request = user →
       run (create_contact_route alias_id request) w
       = run (create_contact_route_body alias_id user (body_of (get_json request))) w).
Proof.
  intros Hsome Howner. split; [|split; [done|]].
  - unfold run, create_contact_route_body. simpl.
    rewrite bind_Alias_get, Hsome. by rewrite decide_False by (by intros []).
  - intros request <-. unfold run. by rewrite create_contact_route_body_eq.
Qed.

(** *** The duplicate check guards the insertion *)

(** X7. [create_contact_route] reaches [Contact.create] only after the check
    of lines 307-309 found no contact with this alias and address: whenever
    the call ends in a 201 or in an IntegrityError, the pair was not in the
    store. An IntegrityError therefore never comes from the pair: it means
    that all 1000 candidates of the generator were in use, and it leaves the
    store as it was. *)
Theorem insert_only_after_check alias_id request w o w' :
  run (create_contact_route alias_id request) w = (o, w') →
  o = Raised IntegrityError ∨ (∃ r, o = Responded r ∧ status r = 201) →
  ¬ has_contact (db w) alias_id (website_email_of request)
  ∧ (o = Raised IntegrityError →
     db w' = db w
     ∧ in_use (db w) (candidate (rng w + 25 * 1000))
     ∧ probes w' = (probes w ++ attempts w 1000)%list).
Proof.
  intros Hrun Hreached.
  destruct (truthy_json (get_json request)) eqn:Hv.
  2:{ rewrite (handle_invalid OpCreate) in Hrun by done. simplify_eq.
      by destruct Hreached as [?|(r & ? & ?)]; simplify_eq. }
  destruct (find_alias (db w) alias_id) as [alias|] eqn:Hsome.
  2:{ rewrite (handle_not_found OpCreate) in Hrun by done. simplify_eq.
      by destruct Hreached as [?|(r & ? & ?)]; simplify_eq. }
  destruct (decide (Alias.user_id alias = User.id (g_user request))) as [Howner|Hne].
  2:{ rewrite (handle_forbidden OpCreate _ _ alias) in Hrun by done. simplify_eq.
      by destruct Hreached as [?|(r & ? & ?)]; simplify_eq. }
  pose proof (find_alias_Some _ _ _ Hsome) as [_ Hid].
  destruct (decide (has_contact (db w) (Alias.id alias) (website_email_of request)))
    as [Hdup|Hnew].
  { destruct (create_conflict alias_id request alias w) as (w1 & Heq & _); [done..|].
    rewrite Heq in Hrun. simplify_eq.
    by destruct Hreached as [?|(r & ? & ?)]; simplify_eq. }
  rewrite Hid in Hnew. split; [exact Hnew|]. rewrite <- Hid in Hnew.
  destruct (generate_reply_email_attempts w) as (k & Hk & Hgen & Hlast).
  destruct (decide (in_use (db w) (candidate (rng w + 25 * k)))) as [Hused|Hfresh].
  - rewrite (create_integrity _ _ alias w _ _ Hv Hsome Howner Hgen Hnew Hused) in Hrun.
    injection Hrun as <- <-. intros _. specialize (Hlast Hused). subst k. done.
  - rewrite (create_created _ _ alias w _ _ Hv Hsome Howner Hgen Hnew Hfresh) in Hrun.
    injection Hrun as <- <-. intros Ho. discriminate Ho.
Qed.

End Api.

(** ** The scenario, run *)

Local Abbreviation scenario_handle :=
  (handle Scenario.EMAIL_DOMAIN Scenario.PAGE_LIMIT Scenario.tape Scenario.getaddrlist
          Scenario.get_alias_log Scenario.display_name Scenario.arrow_format).
Local Abbreviation scenario_create :=
  (create_contact_route Scenario.EMAIL_DOMAIN Scenario.tape Scenario.getaddrlist
                        Scenario.display_name Scenario.arrow_format).
Local Abbreviation scenario_exec :=
  (exec Scenario.EMAIL_DOMAIN Scenario.PAGE_LIMIT Scenario.tape Scenario.getaddrlist
        Scenario.get_alias_log Scenario.display_name Scenario.arrow_format).
Local Abbreviation bob := (Some "Bob <bob@x.com>").

Lemma reply_email_unique_witness :
  reply_unique (db Scenario.world)
  ∧ reply_unique
      (db (scenario_exec
             [mkCall OpCreate 1 (Scenario.post_contact Scenario.u1 bob);
              mkCall OpCreate 1 (Scenario.post_contact Scenario.u1 (Some "bob@x.com"));
              mkCall OpCreate 1 (Scenario.post_contact Scenario.u1 (Some "alice@y.org"));
              mkCall OpDelete 1 (Scenario.no_body Scenario.u2)]
             Scenario.world)).
Proof.
  assert (reply_unique (db Scenario.world)) as Hinit by apply NoDup_nil_2.
  split; [exact Hinit|].
  exact (proj1 (reply_email_unique _ _ _ _ _ _ _ _ _ Hinit)).
Defined.


(** A request on an alias id nobody has, without a body: the answer is the
    400 of the validation, neither NotFound nor Forbidden. *)
Lemma missing_alias_validation_first :
  ¬ (find_alias (db Scenario.world) 7 = None →
     error_class (fst (run (scenario_handle OpUpdate 7 (Scenario.no_body Scenario.u1))
                           Scenario.world)) = Some NotFoundError
     ∨ error_class (fst (run (scenario_handle OpUpdate 7 (Scenario.no_body Scenario.u1))
                             Scenario.world)) = Some Forbidden).
Proof.
  intros Hclaim. destruct (Hclaim ltac:(vm_compute; reflexivity)) as [H|H];
    vm_compute in H; discriminate H.
Qed.

Lemma missing_alias_not_found_witness :
  find_alias (db Scenario.world) 7 = None
  ∧ run (scenario_handle OpDelete 7 (Scenario.no_body Scenario.u1)) Scenario.world
    = (Raised NotFound, Scenario.world).
Proof.
  assert (find_alias (db Scenario.world) 7 = None) as Hnone by (vm_compute; reflexivity).
  split; [exact Hnone|].
  exact (proj1 (missing_alias_not_found Scenario.EMAIL_DOMAIN Scenario.PAGE_LIMIT
                  Scenario.tape Scenario.getaddrlist Scenario.get_alias_log
                  Scenario.display_name Scenario.arrow_format
                  OpDelete 7 (Scenario.no_body Scenario.u1) Scenario.world Hnone)).
Defined.

(** A stranger who sends no body to update-note gets the 400 of the
    validation, not Forbidden. *)
Lemma stranger_without_body_not_forbidden :
  ¬ (find_alias (db Scenario.world) 1 = Some Scenario.a1 →
     Alias.user_id Scenario.a1 ≠ User.id Scenario.u2 →
     fst (run (scenario_handle OpUpdate 1 (Scenario.no_body Scenario.u2)) Scenario.world)
     = Responded (jsonify_error "Forbidden" 403)).
Proof.
  intros Hclaim.
  specialize (Hclaim ltac:(vm_compute; reflexivity) ltac:(vm_compute; lia)).
  vm_compute in Hclaim. discriminate Hclaim.
Qed.

Lemma ownership_gate_witness :
  find_alias (db Scenario.world) 1 = Some Scenario.a1
  ∧ Alias.user_id Scenario.a1 ≠ User.id Scenario.u2
  ∧ run (scenario_handle OpDelete 1 (Scenario.no_body Scenario.u2)) Scenario.world
    = (Responded (jsonify_error "Forbidden" 403), Scenario.world).
Proof.
  assert (find_alias (db Scenario.world) 1 = Some Scenario.a1) as Hsome
    by (vm_compute; reflexivity).
  assert (Alias.user_id Scenario.a1 ≠ User.id Scenario.u2) as Hne by (vm_compute; lia).
  split; [exact Hsome|]. split; [exact Hne|].
  exact (ownership_gate Scenario.EMAIL_DOMAIN Scenario.PAGE_LIMIT
           Scenario.tape Scenario.getaddrlist Scenario.get_alias_log
           Scenario.display_name Scenario.arrow_format
           OpDelete 1 (Scenario.no_body Scenario.u2) Scenario.a1 Scenario.world Hsome Hne).
Defined.

(** Creating a contact from the empty string succeeds and stores the empty
    address. *)
Lemma created_website_email_empty :
  ¬ (∀ r w',
       run (scenario_create 1 (Scenario.post_contact Scenario.u1 (Some ""))) Scenario.world
       = (Responded r, w') →
       status r = 201 →
       ∀ c, c ∈ contacts (db w') → Contact.website_email c ≠ "").
Proof.
  intros Hclaim.
  destruct (run (scenario_create 1 (Scenario.post_contact Scenario.u1 (Some "")))
                Scenario.world) as [o w'] eqn:Hrun.
  vm_compute in Hrun. injection Hrun as <- <-.
  eapply (Hclaim _ _ eq_refl eq_refl); [apply list_elem_of_here|]. reflexivity.
Qed.

Lemma created_website_email_witness :
  ∃ r w',
    run (scenario_create 1 (Scenario.post_contact Scenario.u1 bob)) Scenario.world
    = (Responded r, w')
    ∧ status r = 201
    ∧ ∃ c, contacts (db w') = (contacts (db Scenario.world) ++ [c])%list
        ∧ Contact.website_email c = "bob@x.com"
        ∧ Contact.website_from c = bob.
Proof.
  destruct (run (scenario_create 1 (Scenario.post_contact Scenario.u1 bob))
                Scenario.world) as [o w'] eqn:Hrun.
  pose proof Hrun as Hrun'. vm_compute in Hrun'. injection Hrun' as Ho Hw.
  destruct o as [r|e]; [|discriminate Ho].
  assert (status r = 201) as Hstatus by (injection Ho as <-; reflexivity).
  exists r, w'. split; [reflexivity|]. split; [exact Hstatus|].
  destruct (created_website_email Scenario.EMAIL_DOMAIN Scenario.PAGE_LIMIT
              Scenario.tape Scenario.getaddrlist Scenario.get_alias_log
              Scenario.display_name Scenario.arrow_format
              1 _ _ r w' Hrun Hstatus) as (c & Hcs & Hemail & Hfrom).
  exists c. split; [exact Hcs|]. split; [exact Hemail|exact Hfrom].
Defined.


Lemma empty_body_first_witness :
  truthy_json (get_json (Scenario.no_body Scenario.u2)) = false
  ∧ run (update_alias 1 (Scenario.no_body Scenario.u2)) Scenario.world
    = (Responded (jsonify_error "request body cannot be empty" 400), Scenario.world)
  ∧ run (scenario_create 1 (Scenario.no_body Scenario.u2)) Scenario.world
    = (Responded (jsonify_error "request body cannot be empty" 400), Scenario.world).
Proof.
  assert (truthy_json (get_json (Scenario.no_body Scenario.u2)) = false) as Hempty
    by reflexivity.
  split; [exact Hempty|].
  destruct (empty_body_first Scenario.EMAIL_DOMAIN Scenario.PAGE_LIMIT
              Scenario.tape Scenario.getaddrlist Scenario.get_alias_log
              Scenario.display_name Scenario.arrow_format
              1 (Scenario.no_body Scenario.u2) Scenario.world Hempty) as (Hu & Hc & _).
  split; [exact Hu|exact Hc].
Defined.

(** The scenario of section 8: a stranger cannot delete the alias, the owner
    sets its note, and the second creation of the same contact conflicts. *)
Example scenario_section_8 :
  let w1 := step Scenario.EMAIL_DOMAIN Scenario.PAGE_LIMIT Scenario.tape
              Scenario.getaddrlist Scenario.get_alias_log Scenario.display_name
              Scenario.arrow_format Scenario.world
              (mkCall OpDelete 1 (Scenario.no_body Scenario.u2)) in
  let '(o2, w2) := run (scenario_handle OpUpdate 1 (Scenario.put_note Scenario.u1 "vip")) w1 in
  let '(o3, w3) := run (scenario_create 1 (Scenario.post_contact Scenario.u1 bob)) w2 in
  let '(o4, w4) := run (scenario_create 1 (Scenario.post_contact Scenario.u1 bob)) w3 in
  w1 = Scenario.world
  ∧ o2 = Responded {| payload := JNote (Some "vip"); status := 200 |}
  ∧ Alias.note <$> find_alias (db w2) 1 = Some (Some "vip")
  ∧ o3 = Responded
           {| payload :=
                JContact
                  {| creation_date := "2020-03-01T00:00:00+00:00";
                     creation_timestamp := 1583020900;
                     last_email_sent_date := None;
                     last_email_sent_timestamp := None;
                     contact := "Bob <bob@x.com>";
                     reverse_alias := "Bob <ra+zabcdefghijklmnopqrstuvwx@sl.local>" |};
              status := 201 |}
  ∧ o4 = Responded (jsonify_error "Contact already added" 409)
  ∧ db w4 = db w3.
Proof. vm_compute. repeat split. Qed.

(** When the random source keeps producing the token of an existing contact,
    the generator gives up after 1000 lookups and the insertion is refused by
    the uniqueness constraint of the store. *)
Example exhausted_generator :
  let create :=
    create_contact_route Scenario.EMAIL_DOMAIN Scenario.stuck_tape Scenario.getaddrlist
                         Scenario.display_name Scenario.arrow_format 1 in
  let '(o1, w1) := run (create (Scenario.post_contact Scenario.u1 bob)) Scenario.world in
  let '(o2, w2) := run (create (Scenario.post_contact Scenario.u1 (Some "alice@y.org"))) w1 in
  error_class o1 = None
  ∧ o2 = Raised IntegrityError
  ∧ length (probes w2) = length (probes w1) + 1000
  ∧ db w2 = db w1.
Proof. vm_compute. repeat split. Qed.

(** ** The further properties, on the scenario *)

Local Abbreviation world_with_bob :=
  (scenario_exec [mkCall OpCreate 1 (Scenario.post_contact Scenario.u1 bob)] Scenario.world).

Lemma toggle_alias_flips_witness :
  find_alias (db Neighbours.world) 1 = Some Scenario.a1
  ∧ Alias.user_id Scenario.a1 = User.id Scenario.u1
  ∧ let '(o, w') := run (toggle_alias 1 (Scenario.no_body Scenario.u1)) Neighbours.world in
    o = Responded {| payload := JEnabled false; status := 200 |}
    ∧ find_alias (db w') 1 = Some (toggled Scenario.a1).
Proof.
  assert (find_alias (db Neighbours.world) 1 = Some Scenario.a1) as H1
    by (vm_compute; reflexivity).
  assert (Alias.user_id Scenario.a1 = User.id Scenario.u1) as H2 by reflexivity.
  split; [exact H1|]. split; [exact H2|].
  pose proof (toggle_alias_flips 1 (Scenario.no_body Scenario.u1) _ _ H1 H2) as Hthm.
  destruct (run (toggle_alias 1 (Scenario.no_body Scenario.u1)) Neighbours.world) as [o w'].
  destruct Hthm as (Ho & Hfound & _). split; [exact Ho|exact Hfound].
Defined.

Lemma toggle_alias_twice_witness :
  alias_ids_unique (db Neighbours.world)
  ∧ find_alias (db Neighbours.world) 2 = Some Neighbours.a2
  ∧ Alias.user_id Neighbours.a2 = User.id Scenario.u2
  ∧ run (toggle_alias 2 (Scenario.no_body Scenario.u2))
        (snd (run (toggle_alias 2 (Scenario.no_body Scenario.u2)) Neighbours.world))
    = (Responded {| payload := JEnabled false; status := 200 |}, Neighbours.world).
Proof.
  assert (alias_ids_unique (db Neighbours.world)) as H0.
  { unfold alias_ids_unique. vm_compute. apply NoDup_cons. split; [|apply NoDup_singleton].
    intros Hin. apply list_elem_of_singleton in Hin. discriminate Hin. }
  assert (find_alias (db Neighbours.world) 2 = Some Neighbours.a2) as H1
    by (vm_compute; reflexivity).
  assert (Alias.user_id Neighbours.a2 = User.id Scenario.u2) as H2 by reflexivity.
  split; [exact H0|]. split; [exact H1|]. split; [exact H2|].
  exact (toggle_alias_twice 2 (Scenario.no_body Scenario.u2) _ _ H0 H1 H2).
Defined.

Lemma update_alias_idempotent_witness :
  truthy_json (get_json (Scenario.put_note Scenario.u1 "vip")) = true
  ∧ find_alias (db Scenario.world) 1 = Some Scenario.a1
  ∧ Alias.user_id Scenario.a1 = User.id Scenario.u1
  ∧ let '(o1, w1) := run (update_alias 1 (Scenario.put_note Scenario.u1 "vip")) Scenario.world in
    run (update_alias 1 (Scenario.put_note Scenario.u1 "vip")) w1 = (o1, w1).
Proof.
  assert (truthy_json (get_json (Scenario.put_note Scenario.u1 "vip")) = true) as H0
    by (vm_compute; reflexivity).
  assert (find_alias (db Scenario.world) 1 = Some Scenario.a1) as H1
    by (vm_compute; reflexivity).
  assert (Alias.user_id Scenario.a1 = User.id Scenario.u1) as H2 by reflexivity.
  split; [exact H0|]. split; [exact H1|]. split; [exact H2|].
  exact (update_alias_idempotent 1 (Scenario.put_note Scenario.u1 "vip") _ _ H0 H1 H2).
Defined.

Lemma other_aliases_untouched_witness :
  2 ≠ 1
  ∧ find_alias (db (snd (run (scenario_handle OpDelete 1 (Scenario.no_body Scenario.u1))
                             Neighbours.world))) 2
    = Some Neighbours.a2.
Proof.
  assert (2 ≠ 1) as Hne by lia. split; [exact Hne|].
  rewrite (other_aliases_untouched Scenario.EMAIL_DOMAIN Scenario.PAGE_LIMIT Scenario.tape
             Scenario.getaddrlist Scenario.get_alias_log Scenario.display_name
             Scenario.arrow_format OpDelete 1 (Scenario.no_body Scenario.u1)
             Neighbours.world 2 Hne).
  vm_compute. reflexivity.
Defined.

Lemma other_contacts_untouched_witness :
  2 ≠ 1
  ∧ contacts_for (db (snd (run (scenario_handle OpDelete 1 (Scenario.no_body Scenario.u1))
                               Neighbours.world))) 2
    = [Neighbours.carol].
Proof.
  assert (2 ≠ 1) as Hne by lia. split; [exact Hne|].
  rewrite (other_contacts_untouched Scenario.EMAIL_DOMAIN Scenario.PAGE_LIMIT Scenario.tape
             Scenario.getaddrlist Scenario.get_alias_log Scenario.display_name
             Scenario.arrow_format OpDelete 1 (Scenario.no_body Scenario.u1)
             Neighbours.world 2 Hne).
  vm_compute. reflexivity.
Defined.

Lemma duplicate_detected_after_generator_witness :
  truthy_json (get_json (Scenario.post_contact Scenario.u1 bob)) = true
  ∧ find_alias (db world_with_bob) 1 = Some Scenario.a1
  ∧ Alias.user_id Scenario.a1 = User.id Scenario.u1
  ∧ has_contact (db world_with_bob) 1
      (website_email_of Scenario.getaddrlist (Scenario.post_contact Scenario.u1 bob))
  ∧ ∃ k, 1 ≤ k ≤ 1000
      ∧ run (scenario_create 1 (Scenario.post_contact Scenario.u1 bob)) world_with_bob
        = (Responded (jsonify_error "Contact already added" 409),
           {| db := db world_with_bob; rng := rng world_with_bob + 25 * (k + 1);
              probes := probes world_with_bob
                        ++ attempts Scenario.EMAIL_DOMAIN Scenario.tape world_with_bob k |})
      ∧ length (attempts Scenario.EMAIL_DOMAIN Scenario.tape world_with_bob k) = k.
Proof.
  assert (truthy_json (get_json (Scenario.post_contact Scenario.u1 bob)) = true) as H0
    by (vm_compute; reflexivity).
  assert (find_alias (db world_with_bob) 1 = Some Scenario.a1) as H1
    by (vm_compute; reflexivity).
  assert (Alias.user_id Scenario.a1 = User.id Scenario.u1) as H2 by reflexivity.
  assert (has_contact (db world_with_bob) 1
            (website_email_of Scenario.getaddrlist (Scenario.post_contact Scenario.u1 bob)))
    as H3.
  { unfold has_contact. vm_compute. apply Exists_cons_hd. split; reflexivity. }
  split; [exact H0|]. split; [exact H1|]. split; [exact H2|]. split; [exact H3|].
  exact (duplicate_detected_after_generator Scenario.EMAIL_DOMAIN Scenario.tape
           Scenario.getaddrlist Scenario.display_name Scenario.arrow_format
           1 (Scenario.post_contact Scenario.u1 bob) Scenario.a1 world_with_bob
           H0 H1 H2 H3).
Defined.

Lemma store_changes_only_for_owner_witness :
  db (snd (run (scenario_handle OpToggle 1 (Scenario.no_body Scenario.u1)) Scenario.world))
  ≠ db Scenario.world
  ∧ ∃ alias r,
      find_alias (db Scenario.world) 1 = Some alias
      ∧ Alias.user_id alias = User.id Scenario.u1
      ∧ fst (run (scenario_handle OpToggle 1 (Scenario.no_body Scenario.u1)) Scenario.world)
        = Responded r
      ∧ (status r = 200 ∨ status r = 201).
Proof.
  assert (db (snd (run (scenario_handle OpToggle 1 (Scenario.no_body Scenario.u1))
                       Scenario.world)) ≠ db Scenario.world) as Hchanged.
  { vm_compute. discriminate. }
  split; [exact Hchanged|].
  exact (store_changes_only_for_owner Scenario.EMAIL_DOMAIN Scenario.PAGE_LIMIT
           Scenario.tape Scenario.getaddrlist Scenario.get_alias_log
           Scenario.display_name Scenario.arrow_format
           OpToggle 1 (Scenario.no_body Scenario.u1) Scenario.world Hchanged).
Defined.

Lemma blank_contact_accepted_witness :
  truthy_json (get_json (Scenario.post_contact Scenario.u1 None)) = true
  ∧ truthy_str (contact_email_of (Scenario.post_contact Scenario.u1 None)) = false
  ∧ find_alias (db Scenario.world) 1 = Some Scenario.a1
  ∧ Alias.user_id Scenario.a1 = User.id Scenario.u1
  ∧ ¬ has_contact (db Scenario.world) 1 ""
  ∧ ∃ c j w',
      run (scenario_create 1 (Scenario.post_contact Scenario.u1 None)) Scenario.world
      = (Responded {| payload := JContact j; status := 201 |}, w')
      ∧ contacts (db w') = (contacts (db Scenario.world) ++ [c])%list
      ∧ Contact.website_email c = ""
      ∧ Contact.website_from c = contact_email_of (Scenario.post_contact Scenario.u1 None)
      ∧ contact j = "".
Proof.
  assert (truthy_json (get_json (Scenario.post_contact Scenario.u1 None)) = true) as H0
    by (vm_compute; reflexivity).
  assert (truthy_str (contact_email_of (Scenario.post_contact Scenario.u1 None)) = false)
    as H1 by (vm_compute; reflexivity).
  assert (find_alias (db Scenario.world) 1 = Some Scenario.a1) as H2
    by (vm_compute; reflexivity).
  assert (Alias.user_id Scenario.a1 = User.id Scenario.u1) as H3 by reflexivity.
  assert (¬ has_contact (db Scenario.world) 1 "") as H4.
  { intros Hdup. inversion Hdup. }
  split; [exact H0|]. split; [exact H1|]. split; [exact H2|]. split; [exact H3|].
  split; [exact H4|].
  apply (blank_contact_accepted Scenario.EMAIL_DOMAIN Scenario.tape Scenario.getaddrlist
           Scenario.display_name Scenario.arrow_format
           1 (Scenario.post_contact Scenario.u1 None) Scenario.a1 Scenario.world
           H0 H1 H2 H3 H4).
  intros reply_email w1 _ Hused. inversion Hused.
Defined.

Lemma created_contact_shape_witness :
  ∃ r w',
    run (scenario_create 1 (Scenario.post_contact Scenario.u1 bob)) Neighbours.world
    = (Responded r, w')
    ∧ status r = 201
    ∧ ∃ c, contacts (db w') = [Neighbours.carol; c]
        ∧ Contact.gen_email_id c = 1
        ∧ ¬ in_use (db Neighbours.world) (Contact.reply_email c).
Proof.
  destruct (run (scenario_create 1 (Scenario.post_contact Scenario.u1 bob))
                Neighbours.world) as [o w'] eqn:Hrun.
  pose proof Hrun as Hrun'. vm_compute in Hrun'. injection Hrun' as Ho Hw.
  destruct o as [r|e]; [|discriminate Ho].
  assert (status r = 201) as Hstatus by (injection Ho as <-; reflexivity).
  exists r, w'. split; [reflexivity|]. split; [exact Hstatus|].
  destruct (created_contact_shape Scenario.EMAIL_DOMAIN Scenario.PAGE_LIMIT
              Scenario.tape Scenario.getaddrlist Scenario.get_alias_log
              Scenario.display_name Scenario.arrow_format
              1 _ _ r w' Hrun Hstatus)
    as (c & k & token & _ & Hcs & _ & Hgen & _ & _ & _ & Hfresh & _).
  exists c. split; [exact Hcs|]. split; [exact Hgen|exact Hfresh].
Defined.

Lemma delete_alias_removes_witness :
  find_alias (db Neighbours.world) 2 = Some Neighbours.a2
  ∧ Alias.user_id Neighbours.a2 = User.id Scenario.u2
  ∧ let '(o, w') := run (delete_alias 2 (Scenario.no_body Scenario.u2)) Neighbours.world in
    o = Responded {| payload := JDeleted true; status := 200 |}
    ∧ find_alias (db w') 2 = None.
Proof.
  assert (find_alias (db Neighbours.world) 2 = Some Neighbours.a2) as H1
    by (vm_compute; reflexivity).
  assert (Alias.user_id Neighbours.a2 = User.id Scenario.u2) as H2 by reflexivity.
  split; [exact H1|]. split; [exact H2|].
  pose proof (delete_alias_removes 2 (Scenario.no_body Scenario.u2) _ _ H1 H2) as Hthm.
  destruct (run (delete_alias 2 (Scenario.no_body Scenario.u2)) Neighbours.world) as [o w'].
  destruct Hthm as (Ho & Hgone & _). split; [exact Ho|exact Hgone].
Defined.

Lemma response_statuses_witness :
  fst (run (scenario_handle OpCreate 1 (Scenario.post_contact Scenario.u1 bob))
           world_with_bob)
  = Responded (jsonify_error "Contact already added" 409)
  ∧ (status (jsonify_error "Contact already added" 409) = 400
     ∧ validates OpCreate (Scenario.post_contact Scenario.u1 bob) = false
     ∨ status (jsonify_error "Contact already added" 409) = 403
     ∨ status (jsonify_error "Contact already added" 409) = 200 ∧ OpCreate ≠ OpCreate
     ∨ OpCreate = OpCreate
       ∧ (status (jsonify_error "Contact already added" 409) = 201
          ∨ status (jsonify_error "Contact already added" 409) = 409)).
Proof.
  assert (fst (run (scenario_handle OpCreate 1 (Scenario.post_contact Scenario.u1 bob))
                   world_with_bob)
          = Responded (jsonify_error "Contact already added" 409)) as Hrun
    by (vm_compute; reflexivity).
  split; [exact Hrun|].
  exact (response_statuses Scenario.EMAIL_DOMAIN Scenario.PAGE_LIMIT
           Scenario.tape Scenario.getaddrlist Scenario.get_alias_log
           Scenario.display_name Scenario.arrow_format
           OpCreate 1 (Scenario.post_contact Scenario.u1 bob) world_with_bob _ Hrun).
Defined.

Lemma alias_identity_kept_witness :
  find_alias
    (db (scenario_exec
           [mkCall OpToggle 1 (Scenario.no_body Scenario.u1);
            mkCall OpUpdate 1 (Scenario.put_note Scenario.u1 "vip")]
           Scenario.world)) 1
  = Some (with_note (toggled Scenario.a1) (Some "vip"))
  ∧ ∃ a, find_alias (db Scenario.world) 1 = Some a
      ∧ Alias.id (with_note (toggled Scenario.a1) (Some "vip")) = Alias.id a
      ∧ Alias.user_id (with_note (toggled Scenario.a1) (Some "vip")) = Alias.user_id a
      ∧ Alias.email (with_note (toggled Scenario.a1) (Some "vip")) = Alias.email a
      ∧ Alias.created_at (with_note (toggled Scenario.a1) (Some "vip")) = Alias.created_at a.
Proof.
  assert (find_alias
            (db (scenario_exec
                   [mkCall OpToggle 1 (Scenario.no_body Scenario.u1);
                    mkCall OpUpdate 1 (Scenario.put_note Scenario.u1 "vip")]
                   Scenario.world)) 1
          = Some (with_note (toggled Scenario.a1) (Some "vip"))) as Hfound
    by (vm_compute; reflexivity).
  split; [exact Hfound|].
  exact (alias_identity_kept Scenario.EMAIL_DOMAIN Scenario.PAGE_LIMIT
           Scenario.tape Scenario.getaddrlist Scenario.get_alias_log
           Scenario.display_name Scenario.arrow_format _ _ _ _ Hfound).
Defined.

Lemma contacts_persist_witness :
  Neighbours.carol ∈ contacts (db Neighbours.world)
  ∧ (Neighbours.carol
       ∈ contacts (db (snd (run (scenario_handle OpCreate 1
                                   (Scenario.post_contact Scenario.u1 bob))
                                Neighbours.world)))
     ∨ (OpCreate = OpDelete ∧ Contact.gen_email_id Neighbours.carol = 1
        ∧ ∃ alias, find_alias (db Neighbours.world) 1 = Some alias
                 ∧ Alias.user_id alias = User.id Scenario.u1)).
Proof.
  assert (Neighbours.carol ∈ contacts (db Neighbours.world)) as Hin
    by apply list_elem_of_here.
  split; [exact Hin|].
  exact (contacts_persist Scenario.EMAIL_DOMAIN Scenario.PAGE_LIMIT
           Scenario.tape Scenario.getaddrlist Scenario.get_alias_log
           Scenario.display_name Scenario.arrow_format
           OpCreate 1 (Scenario.post_contact Scenario.u1 bob) Neighbours.world _ Hin).
Defined.

(** ** The revised statements, on the scenario *)

Lemma get_alias_activities_table_witness :
  args_page_id (Scenario.get_page Scenario.u1 0) = Some 0%Z
  ∧ find_alias (db Scenario.world) 1 = Some Scenario.a1
  ∧ Alias.user_id Scenario.a1 = User.id (g_user (Scenario.get_page Scenario.u1 0))
  ∧ run (get_alias_activities Timeline.get_alias_log 1 (Scenario.get_page Scenario.u1 0))
        Scenario.world
    = (Responded
         {| payload :=
              JActivities
                [ mkActivity 1583020990 "a1@sl.local" "Bob <bob@x.com>" reply;
                  mkActivity 1583020980 "Bob <bob@x.com>" "a1@sl.local" bounced;
                  mkActivity 1583020970 "spam@y.org" "a1@sl.local" block;
                  mkActivity 1583020960 "news@z.net" "a1@sl.local" forward ];
            status := 200 |},
       Scenario.world).
Proof.
  assert (args_page_id (Scenario.get_page Scenario.u1 0) = Some 0%Z) as H0 by reflexivity.
  assert (find_alias (db Scenario.world) 1 = Some Scenario.a1) as H1
    by (vm_compute; reflexivity).
  assert (Alias.user_id Scenario.a1 = User.id (g_user (Scenario.get_page Scenario.u1 0)))
    as H2 by reflexivity.
  split; [exact H0|]. split; [exact H1|]. split; [exact H2|].
  destruct (get_alias_activities_table Timeline.get_alias_log 1
              (Scenario.get_page Scenario.u1 0) 0%Z Scenario.a1 Scenario.world H0 H1 H2)
    as (activities & Hrun & Heq & _).
  rewrite Hrun, Heq. vm_compute. reflexivity.
Defined.


Lemma pages_concatenate_witness :
  (Z.of_nat (length (contacts (db world_with_bob))) ≤ OFFSET_MAX)%Z
  ∧ mjoin (listed Scenario.PAGE_LIMIT Scenario.display_name Scenario.arrow_format
             Scenario.a1 world_with_bob <$> seq 0 3)
    = serialize_contact Scenario.display_name Scenario.arrow_format (db world_with_bob)
        <$> take (3 * Scenario.PAGE_LIMIT) (contacts_of (db world_with_bob) Scenario.a1).
Proof.
  assert (Z.of_nat (length (contacts (db world_with_bob))) ≤ OFFSET_MAX)%Z as Hsize
    by (vm_compute; discriminate).
  split; [exact Hsize|].
  exact (proj1 (pages_concatenate Scenario.PAGE_LIMIT Scenario.display_name
                  Scenario.arrow_format Scenario.a1 world_with_bob 3 Hsize)).
Defined.

Lemma update_alias_sets_note_witness :
  truthy_body (JsonObject {[ "contact" := bob ]}) = true
  ∧ find_alias (db Neighbours.world) 2 = Some Neighbours.a2
  ∧ Alias.user_id Neighbours.a2 = User.id Scenario.u2
  ∧ let '(o, w') :=
      run (update_alias_body 2 Scenario.u2 (JsonObject {[ "contact" := bob ]}))
          Neighbours.world in
    o = Responded {| payload := JNote None; status := 200 |}
    ∧ Alias.note <$> find_alias (db w') 2 = Some None.
Proof.
  assert (truthy_body (JsonObject {[ "contact" := bob ]}) = true) as H0
    by (vm_compute; reflexivity).
  assert (find_alias (db Neighbours.world) 2 = Some Neighbours.a2) as H1
    by (vm_compute; reflexivity).
  assert (Alias.user_id Neighbours.a2 = User.id Scenario.u2) as H2 by reflexivity.
  split; [exact H0|]. split; [exact H1|]. split; [exact H2|].
  pose proof (update_alias_sets_note 2 Scenario.u2 (JsonObject {[ "contact" := bob ]})
                _ _ H0 H1 H2) as Hthm.
  destruct (run (update_alias_body 2 Scenario.u2 (JsonObject {[ "contact" := bob ]}))
                Neighbours.world) as [o w'].
  simpl in Hthm. destruct Hthm as (Ho & _ & _ & Hnote & _). split.
  - rewrite Ho. vm_compute. reflexivity.
  - apply Hnote. left. vm_compute. reflexivity.
Defined.

(** The body [[1]] sent by the owner: update-note and create-contact both end
    in the AttributeError. *)
Example non_object_body :
  run (update_alias_body 1 Scenario.u1 (JsonOther true)) Scenario.world
  = (Raised AttributeError, Scenario.world)
  ∧ run (create_contact_route_body Scenario.EMAIL_DOMAIN Scenario.tape Scenario.getaddrlist
           Scenario.display_name Scenario.arrow_format 1 Scenario.u1 (JsonOther true))
        Scenario.world
    = (Raised AttributeError, Scenario.world).
Proof. vm_compute. split; reflexivity. Qed.

Lemma create_contact_route_non_object_witness :
  find_alias (db Scenario.world) 1 = Some Scenario.a1
  ∧ Alias.user_id Scenario.a1 = User.id Scenario.u1
  ∧ run (create_contact_route_body Scenario.EMAIL_DOMAIN Scenario.tape Scenario.getaddrlist
           Scenario.display_name Scenario.arrow_format 1 Scenario.u1 (JsonOther true))
        Scenario.world
    = (Raised AttributeError, Scenario.world).
Proof.
  assert (find_alias (db Scenario.world) 1 = Some Scenario.a1) as H1
    by (vm_compute; reflexivity).
  assert (Alias.user_id Scenario.a1 = User.id Scenario.u1) as H2 by reflexivity.
  split; [exact H1|]. split; [exact H2|].
  exact (proj1 (create_contact_route_non_object Scenario.EMAIL_DOMAIN Scenario.tape
                  Scenario.getaddrlist Scenario.display_name Scenario.arrow_format
                  1 Scenario.u1 Scenario.a1 Scenario.world H1 H2)).
Defined.

Lemma insert_only_after_check_witness :
  ∃ r w',
    run (scenario_create 1 (Scenario.post_contact Scenario.u1 bob)) Neighbours.world
    = (Responded r, w')
    ∧ status r = 201
    ∧ ¬ has_contact (db Neighbours.world) 1
          (website_email_of Scenario.getaddrlist (Scenario.post_contact Scenario.u1 bob)).
Proof.
  destruct (run (scenario_create 1 (Scenario.post_contact Scenario.u1 bob))
                Neighbours.world) as [o w'] eqn:Hrun.
  pose proof Hrun as Hrun'. vm_compute in Hrun'. injection Hrun' as Ho Hw.
  destruct o as [r|e]; [|discriminate Ho].
  assert (status r = 201) as Hstatus by (injection Ho as <-; reflexivity).
  exists r, w'. split; [reflexivity|]. split; [exact Hstatus|].
  exact (proj1 (insert_only_after_check Scenario.EMAIL_DOMAIN Scenario.PAGE_LIMIT
                  Scenario.tape Scenario.getaddrlist Scenario.get_alias_log
                  Scenario.display_name Scenario.arrow_format
                  1 _ _ _ _ Hrun (or_intror (ex_intro _ r (conj eq_refl Hstatus))))).
Defined.
